(** * route_deceptiveness_score: the data-cleaning pipeline of [data_cleaning.py]

    A shallow embedding of the pipeline's stages and the properties the
    specification states about them.

    - Python exceptions are a [pyresult]: [Ok v] or [Raise e].
    - A pandas DataFrame is a list of labelled rows (the index label and a
      record of the columns the stage reads); a Series is a list of labelled
      cells.  Column assignment [df[c] = series] aligns on the index labels.
    - float64 values are Rocq's primitive binary64 floats. *)

From Stdlib Require Import ZArith List String Ascii Bool Lia Floats Sorted Permutation.
From Stdlib Require Uint63 DecimalString DecimalPos.
Import ListNotations.

Set Implicit Arguments.

(** ** Python results *)

Inductive exn : Type :=
| ValueError
| AttributeError
| KeyError.

Inductive pyresult (A : Type) : Type :=
| Ok (v : A)
| Raise (e : exn).

Arguments Ok {A} v.
Arguments Raise {A} e.

Definition bind {A B : Type} (m : pyresult A) (k : A -> pyresult B) : pyresult B :=
  match m with
  | Ok v => k v
  | Raise e => Raise e
  end.

Notation "x <- m ;; k" := (bind m (fun x => k))
  (at level 61, m at next level, right associativity).

(** [for x in xs: body x], collecting what each iteration appends; the first
    exception ends the loop. *)
Fixpoint for_each {A B : Type} (body : A -> pyresult (list B)) (xs : list A)
  : pyresult (list B) :=
  match xs with
  | [] => Ok []
  | x :: rest =>
      out <- body x ;;
      more <- for_each body rest ;;
      Ok (out ++ more)
  end.

(** ** Cells of a table read from CSV *)

(** A cell of an identifier or text column: an integer-valued number, a text,
    or the missing value (NaN).  Fractional and infinite numbers are not
    modelled. *)
Inductive cell : Type :=
| Num (z : Z)
| Txt (s : string)
| Missing.

Definition notnull (c : cell) : bool :=
  match c with
  | Missing => false
  | _ => true
  end.

(** ** Python text: [str.split] and [int] *)

Module PyStr.

Open Scope char_scope.

(** [s.split(sep)] for a one-character separator: always at least one part. *)
Fixpoint split (sep : ascii) (s : string) : list string :=
  match s with
  | EmptyString => [EmptyString]
  | String c rest =>
      if Ascii.eqb c sep then EmptyString :: split sep rest
      else match split sep rest with
           | [] => [String c EmptyString]
           | part :: parts => String c part :: parts
           end
  end.


(** ASCII white space as [int] strips it: TAB..CR, FS..US and the blank. *)
Definition is_space (c : ascii) : bool :=
  let n := nat_of_ascii c in
  ((9 <=? n) && (n <=? 13))%nat || ((28 <=? n) && (n <=? 32))%nat.

Definition is_digit (c : ascii) : bool :=
  let n := nat_of_ascii c in ((48 <=? n) && (n <=? 57))%nat.

Definition digit_value (c : ascii) : Z := Z.of_nat (nat_of_ascii c - 48).

Fixpoint lstrip (s : string) : string :=
  match s with
  | String c rest => if is_space c then lstrip rest else s
  | EmptyString => s
  end.

Fixpoint rstrip (s : string) : string :=
  match s with
  | EmptyString => EmptyString
  | String c rest =>
      match rstrip rest with
      | EmptyString => if is_space c then EmptyString else String c EmptyString
      | kept => String c kept
      end
  end.

Definition strip (s : string) : string := rstrip (lstrip s).

(** The digits of a decimal literal; a single underscore may sit between two
    digits. *)
Fixpoint digits (acc : Z) (s : string) : option Z :=
  match s with
  | EmptyString => Some acc
  | String c rest =>
      if is_digit c then digits (10 * acc + digit_value c) rest
      else if Ascii.eqb c "_" then
        match rest with
        | String d _ => if is_digit d then digits acc rest else None
        | EmptyString => None
        end
      else None
  end.

Definition literal (s : string) : option Z :=
  match s with
  | String c _ => if is_digit c then digits 0 s else None
  | EmptyString => None
  end.

(** [int(s)] for an ASCII text in base 10: [None] stands for the ValueError. *)
Definition parse_int (s : string) : option Z :=
  match strip s with
  | String "+" rest => literal rest
  | String "-" rest => option_map Z.opp (literal rest)
  | body => literal body
  end.

Definition int (s : string) : pyresult Z :=
  match parse_int s with
  | Some z => Ok z
  | None => Raise ValueError
  end.

(** [str(z)] for an integer. *)
Definition str (z : Z) : string :=
  DecimalString.NilZero.string_of_int (Z.to_int z).



(** [str.upper] on ASCII letters. *)
Definition upper_char (c : ascii) : ascii :=
  let n := nat_of_ascii c in
  if ((97 <=? n) && (n <=? 122))%nat then ascii_of_nat (n - 32) else c.

Fixpoint upper (s : string) : string :=
  match s with
  | EmptyString => EmptyString
  | String c rest => String (upper_char c) (upper rest)
  end.

End PyStr.

(** ** ClockNormalizer: [convert_game_clock_to_seconds] *)

Module Clock.

Open Scope string_scope.
Open Scope Z_scope.

(** [minutes, seconds = map(int, game_clock.split(':'))]: [int] runs on the
    parts as the unpacking draws them, and the unpacking wants exactly two. *)
Definition unpack_two (parts : list string) : pyresult (Z * Z) :=
  match parts with
  | [] => Raise ValueError
  | [a] => _ <- PyStr.int a ;; Raise ValueError
  | [a; b] => m <- PyStr.int a ;; s <- PyStr.int b ;; Ok (m, s)
  | a :: b :: c :: _ =>
      _ <- PyStr.int a ;; _ <- PyStr.int b ;; _ <- PyStr.int c ;; Raise ValueError
  end.

(** The body of the [try]: only a text has [split]. *)
Definition clock_body (game_clock : cell) : pyresult Z :=
  match game_clock with
  | Txt s =>
      ms <- unpack_two (PyStr.split ":" s) ;;
      Ok (fst ms * 60 + snd ms)
  | Num _ | Missing => Raise AttributeError
  end.

(** [try: ... except Exception: return np.nan]; [None] is the NaN. *)
Definition convert_game_clock_to_seconds (game_clock : cell) : pyresult (option Z) :=
  match clock_body game_clock with
  | Ok v => Ok (Some v)
  | Raise _ => Ok None
  end.

End Clock.


(** ** pandas: labelled rows, Series, alignment, joins *)

Module Pandas.

Open Scope Z_scope.

Definition label := Z.
Definition Series (A : Type) := list (label * A).
Definition DataFrame (R : Type) := list (label * R).

(** [df[c]] *)
Definition column {R A : Type} (get : R -> A) (df : DataFrame R) : Series A :=
  map (fun lr => (fst lr, get (snd lr))) df.

(** [df.loc[mask]]: the rows keep their labels. *)
Definition loc {R : Type} (mask : R -> bool) (df : DataFrame R) : DataFrame R :=
  filter (fun lr => mask (snd lr)) df.

(** [df.loc[mask, cols]] and [df[cols]]: a projection of every kept row. *)
Definition project {R P : Type} (cols : R -> P) (df : DataFrame R) : DataFrame P :=
  map (fun lr => (fst lr, cols (snd lr))) df.

(** A fresh RangeIndex, as [read_csv], [merge] and
    [concat(ignore_index=True)] give. *)
Fixpoint range_index {R : Type} (start : Z) (rows : list R) : DataFrame R :=
  match rows with
  | [] => []
  | r :: rest => (start, r) :: range_index (start + 1) rest
  end.

Definition values {R : Type} (df : DataFrame R) : list R := map snd df.

Definition concat_ignore_index {R : Type} (dfs : list (DataFrame R)) : DataFrame R :=
  range_index 0 (flat_map values dfs).

Section Coercion.

(** How a text cell reads as a number, if it does: the numeral grammar of
    [pd.to_numeric] is left open. *)
Variable parse_numeric : string -> option Z.

(** [pd.to_numeric(., errors='coerce')] on one cell. *)
Definition to_numeric_cell (c : cell) : cell :=
  match c with
  | Num z => Num z
  | Txt s => match parse_numeric s with
             | Some z => Num z
             | None => Missing
             end
  | Missing => Missing
  end.

Definition to_numeric (s : Series cell) : Series cell :=
  map (fun lc => (fst lc, to_numeric_cell (snd lc))) s.

End Coercion.

(** [s.dropna()]: the missing cells leave the Series, with their labels. *)
Definition dropna (s : Series cell) : Series cell :=
  filter (fun lc => notnull (snd lc)) s.

(** [s.astype(int)]: a missing value cannot be cast. *)
Definition astype_int_cell (c : cell) : pyresult cell :=
  match c with
  | Num z => Ok (Num z)
  | Txt s => z <- PyStr.int s ;; Ok (Num z)
  | Missing => Raise ValueError
  end.

Fixpoint astype_int (s : Series cell) : pyresult (Series cell) :=
  match s with
  | [] => Ok []
  | (l, c) :: rest =>
      c' <- astype_int_cell c ;;
      rest' <- astype_int rest ;;
      Ok ((l, c') :: rest')
  end.

Fixpoint lookup {A : Type} (l : label) (s : Series A) : option A :=
  match s with
  | [] => None
  | (l', a) :: rest => if l =? l' then Some a else lookup l rest
  end.

(** [df[c] = s]: every row of [df] stays; the new cell of a row is the cell
    [s] holds under the row's label, and missing where [s] has no such label. *)
Definition assign {R : Type} (set : cell -> R -> R) (df : DataFrame R)
  (s : Series cell) : DataFrame R :=
  map (fun lr => (fst lr, set (match lookup (fst lr) s with
                               | Some c => c
                               | None => Missing
                               end) (snd lr))) df.

Section CoerceColumn.

Variable parse_numeric : string -> option Z.

(** The idiom of every stage:
    [df[c] = pd.to_numeric(df[c], errors='coerce').dropna().astype(int)]. *)
Definition coerce_int {R : Type} (get : R -> cell) (set : cell -> R -> R)
  (df : DataFrame R) : pyresult (DataFrame R) :=
  ints <- astype_int (dropna (to_numeric parse_numeric (column get df))) ;;
  Ok (assign set df ints).

End CoerceColumn.

(** Equality of two cells as [isin] and the join keys see it: numbers by
    value, texts by their characters, and a missing value equal to a missing
    value. *)
Definition cell_eqb (a b : cell) : bool :=
  match a, b with
  | Num m, Num n => m =? n
  | Txt s, Txt t => String.eqb s t
  | Missing, Missing => true
  | _, _ => false
  end.

(** [s.isin(values)] on one cell. *)
Definition isin (vals : list cell) (c : cell) : bool :=
  existsb (cell_eqb c) vals.

(** [s.unique()]: the distinct cells in order of first appearance. *)
Fixpoint unique (cs : list cell) : list cell :=
  match cs with
  | [] => []
  | c :: rest => c :: filter (fun d => negb (cell_eqb c d)) (unique rest)
  end.

Definition key2 := (cell * cell)%type.

Definition key2_eqb (a b : key2) : bool :=
  cell_eqb (fst a) (fst b) && cell_eqb (snd a) (snd b).

Section Merge.

Variables L R O : Type.
Variable key_l : L -> key2.
Variable key_r : R -> key2.

Definition matches (l : L) (right : DataFrame R) : list R :=
  filter (fun r => key2_eqb (key_l l) (key_r r)) (values right).

(** [left.merge(right, on=keys, how='inner')]: the rows of [left] in order,
    each once per matching row of [right]. *)
Definition merge_inner (join : L -> R -> O) (left : DataFrame L)
  (right : DataFrame R) : DataFrame O :=
  range_index 0
    (flat_map (fun l => map (join l) (matches l right)) (values left)).

(** [left.merge(right, on=keys, how='left')]: a row of [left] without a
    match stays, once, with the columns of [right] missing. *)
Definition merge_left (join : L -> option R -> O) (left : DataFrame L)
  (right : DataFrame R) : DataFrame O :=
  range_index 0
    (flat_map (fun l => match matches l right with
                        | [] => [join l None]
                        | ms => map (fun r => join l (Some r)) ms
                        end) (values left)).

End Merge.

End Pandas.

(** ** The tables of the pipeline *)

(** players.csv *)
Record Player : Type := mkPlayer {
  player_nflId : cell;
  position : cell
}.

(** tracking_week_N.csv; [tracking_rest] holds the columns no stage reads. *)
Record Tracking : Type := mkTracking {
  gameId : cell;
  playId : cell;
  nflId : cell;
  frameId : cell;
  frameType : cell;
  x : float;
  y : float;
  tracking_rest : list (string * cell)
}.

(** A tracking row once ingested: the row and its [week] column. *)
Record Tagged : Type := mkTagged {
  tracked : Tracking;
  week : Z
}.

(** The status cell of plays.csv: a boolean, a text, a number or missing. *)
Inductive flag : Type :=
| FBool (b : bool)
| FTxt (s : string)
| FNum (z : Z)
| FMissing.

(** The contextual columns of a play. *)
Record Context : Type := mkContext {
  quarter : cell;
  down : cell;
  yardsToGo : cell;
  yardlineSide : cell;
  yardlineNumber : cell;
  gameClock : cell;
  absoluteYardlineNumber : cell
}.

(** plays.csv *)
Record Play : Type := mkPlay {
  play_gameId : cell;
  play_playId : cell;
  isDropback : flag;
  context : Context
}.

(** [plays_df.loc[..., ['gameId', 'playId']]] *)
Record PlayKey : Type := mkPlayKey {
  key_gameId : cell;
  key_playId : cell
}.

(** [plays_df[relevant_columns]] *)
Record PlayInfo : Type := mkPlayInfo {
  info_gameId : cell;
  info_playId : cell;
  info_context : Context
}.

(** A tracking row after the merge with the plays. *)
Record Enriched : Type := mkEnriched {
  tagged : Tagged;
  play_context : Context
}.

(** player_play.csv; [pp_rest] holds the columns no stage reads. *)
Record PlayerPlay : Type := mkPlayerPlay {
  pp_gameId : cell;
  pp_playId : cell;
  pp_nflId : cell;
  routeRan : cell;
  pp_rest : list (string * cell)
}.

(** The route table: ['gameId', 'playId', 'nflId', 'routeRan']. *)
Record Route : Type := mkRoute {
  route_gameId : cell;
  route_playId : cell;
  route_nflId : cell;
  route_routeRan : cell
}.

Definition route_columns : list string :=
  ["gameId"; "playId"; "nflId"; "routeRan"]%string.

(** The columns of a [Route] row, as (name, cell) pairs in table order. *)
Definition route_cells (r : Route) : list (string * cell) :=
  [("gameId", route_gameId r); ("playId", route_playId r);
   ("nflId", route_nflId r); ("routeRan", route_routeRan r)]%string.

(** A row of the distance table. *)
Record DistanceSummary : Type := mkSummary {
  ds_gameId : Z;
  ds_playId : Z;
  ds_frameId : Z;
  ds_nflId : cell;
  min_distance : float;
  max_distance : float;
  mean_distance : float;
  std_distance : float
}.

(** Column updates. *)
Definition set_player_nflId (c : cell) (r : Player) : Player :=
  mkPlayer c (position r).

Definition set_gameId (c : cell) (r : Tracking) : Tracking :=
  mkTracking c (playId r) (nflId r) (frameId r) (frameType r) (x r) (y r)
    (tracking_rest r).

Definition set_playId (c : cell) (r : Tracking) : Tracking :=
  mkTracking (gameId r) c (nflId r) (frameId r) (frameType r) (x r) (y r)
    (tracking_rest r).

Definition set_nflId (c : cell) (r : Tracking) : Tracking :=
  mkTracking (gameId r) (playId r) c (frameId r) (frameType r) (x r) (y r)
    (tracking_rest r).

Definition set_key_gameId (c : cell) (r : PlayKey) : PlayKey :=
  mkPlayKey c (key_playId r).

Definition set_key_playId (c : cell) (r : PlayKey) : PlayKey :=
  mkPlayKey (key_gameId r) c.

Definition set_info_gameId (c : cell) (r : PlayInfo) : PlayInfo :=
  mkPlayInfo c (info_playId r) (info_context r).

Definition set_info_playId (c : cell) (r : PlayInfo) : PlayInfo :=
  mkPlayInfo (info_gameId r) c (info_context r).

Definition set_pp_gameId (c : cell) (r : PlayerPlay) : PlayerPlay :=
  mkPlayerPlay c (pp_playId r) (pp_nflId r) (routeRan r) (pp_rest r).

Definition set_pp_playId (c : cell) (r : PlayerPlay) : PlayerPlay :=
  mkPlayerPlay (pp_gameId r) c (pp_nflId r) (routeRan r) (pp_rest r).

Definition set_pp_nflId (c : cell) (r : PlayerPlay) : PlayerPlay :=
  mkPlayerPlay (pp_gameId r) (pp_playId r) c (routeRan r) (pp_rest r).

Definition missing_context : Context :=
  mkContext Missing Missing Missing Missing Missing Missing Missing.

(** ** The stages of [data_cleaning.py] *)

Module Stages.

Import Pandas.
Open Scope Z_scope.

(** [pd.read_csv(path)]: the rows of the file under a fresh RangeIndex. *)
Definition read_csv {R : Type} (file : list R) : DataFrame R :=
  range_index 0 file.

(** [pd.read_csv(path, chunksize=n)]: blocks of [n] rows, the labels running
    on from block to block; [n] must be at least 1. *)
Fixpoint chunks_of {R : Type} (fuel size : nat) (df : DataFrame R)
  : list (DataFrame R) :=
  match fuel with
  | O => []
  | S fuel' =>
      match df with
      | [] => []
      | _ => firstn size df :: chunks_of fuel' size (skipn size df)
      end
  end.

Definition read_csv_chunks {R : Type} (chunksize : nat) (file : list R)
  : pyresult (list (DataFrame R)) :=
  match chunksize with
  | O => Raise ValueError
  | _ => Ok (chunks_of (List.length file) chunksize (range_index 0 file))
  end.

(** The status column as the pass-play filter rewrites it:
    [.replace({True: 'TRUE', False: 'FALSE'}).fillna('FALSE').astype(str).str.upper()]. *)
Definition replace_bools (f : flag) : flag :=
  match f with
  | FBool true => FTxt "TRUE"
  | FBool false => FTxt "FALSE"
  | other => other
  end.

Definition fillna_FALSE (f : flag) : flag :=
  match f with
  | FMissing => FTxt "FALSE"
  | other => other
  end.

Definition astype_str (f : flag) : string :=
  match f with
  | FTxt s => s
  | FNum z => PyStr.str z
  | FBool true => "True"
  | FBool false => "False"
  | FMissing => "nan"
  end.

Definition normalize_isDropback (f : flag) : string :=
  PyStr.upper (astype_str (fillna_FALSE (replace_bools f))).

Definition tracking_key (t : Tagged) : key2 :=
  (gameId (tracked t), playId (tracked t)).

Definition play_key (k : PlayKey) : key2 := (key_gameId k, key_playId k).

Definition info_key (p : PlayInfo) : key2 := (info_gameId p, info_playId p).

Definition frame_types : list cell := [Txt "BEFORE_SNAP"; Txt "SNAP"].

Section WithNumerals.

Variable parse_numeric : string -> option Z.

(** [filter_players_by_position]: the identifiers of the players whose
    position is one of [valid_positions]. *)
Definition filter_players_by_position (players_csv : list Player)
  (valid_positions : list cell) : pyresult (list cell) :=
  let players_df := read_csv players_csv in
  let filtered_players_df :=
    loc (fun r => isin valid_positions (position r)) players_df in
  filtered_players_df <-
    coerce_int parse_numeric player_nflId set_player_nflId filtered_players_df ;;
  Ok (unique (map player_nflId (values filtered_players_df))).

(** One block of a week file: what the loop body appends to [week_data]. *)
Definition filter_chunk (valid_nfl_ids : list cell) (week : Z)
  (chunk : DataFrame Tracking) : pyresult (list (DataFrame Tagged)) :=
  let filtered_chunk :=
    loc (fun r => isin valid_nfl_ids (nflId r) && isin frame_types (frameType r))
      chunk in
  filtered_chunk <- coerce_int parse_numeric gameId set_gameId filtered_chunk ;;
  filtered_chunk <- coerce_int parse_numeric playId set_playId filtered_chunk ;;
  filtered_chunk <- coerce_int parse_numeric nflId set_nflId filtered_chunk ;;
  match filtered_chunk with
  | [] => Ok []
  | _ => Ok [project (fun r => mkTagged r week) filtered_chunk]
  end.

(** One week: what the outer loop body appends to [all_weeks_data]. *)
Definition filter_week (valid_nfl_ids : list cell) (chunk_size : nat)
  (week_file : Z * list Tracking) : pyresult (list (DataFrame Tagged)) :=
  let week := fst week_file in
  chunks <- read_csv_chunks chunk_size (snd week_file) ;;
  week_data <- for_each (filter_chunk valid_nfl_ids week) chunks ;;
  match week_data with
  | [] => Ok []
  | _ => Ok [concat_ignore_index week_data]
  end.

(** [filter_tracking_data]: [weeks] pairs every week number with the rows
    of its file.  When nothing survives the result is the empty frame. *)
Definition filter_tracking_data (weeks : list (Z * list Tracking))
  (valid_nfl_ids : list cell) (chunk_size : nat)
  : pyresult (DataFrame Tagged) :=
  all_weeks_data <- for_each (filter_week valid_nfl_ids chunk_size) weeks ;;
  match all_weeks_data with
  | [] => Ok []
  | _ => Ok (concat_ignore_index all_weeks_data)
  end.

(** The keys of the plays whose rewritten status is ['TRUE']. *)
Definition dropback_play_ids (plays_csv : list Play)
  : pyresult (DataFrame PlayKey) :=
  let plays_df := read_csv plays_csv in
  let plays_df :=
    project (fun p => (p, normalize_isDropback (isDropback p))) plays_df in
  let ids :=
    project (fun ps => mkPlayKey (play_gameId (fst ps)) (play_playId (fst ps)))
      (loc (fun ps => String.eqb (snd ps) "TRUE") plays_df) in
  ids <- coerce_int parse_numeric key_gameId set_key_gameId ids ;;
  ids <- coerce_int parse_numeric key_playId set_key_playId ids ;;
  Ok ids.

(** [filter_for_pass_plays] *)
Definition filter_for_pass_plays (plays_csv : list Play)
  (tracking_data : DataFrame Tagged) : pyresult (DataFrame Tagged) :=
  ids <- dropback_play_ids plays_csv ;;
  Ok (merge_inner tracking_key play_key (fun t _ => t) tracking_data ids).

(** [merge_with_plays] *)
Definition merge_with_plays (plays_csv : list Play)
  (tracking_data : DataFrame Tagged) : pyresult (DataFrame Enriched) :=
  let plays_df :=
    project (fun p => mkPlayInfo (play_gameId p) (play_playId p) (context p))
      (read_csv plays_csv) in
  plays_df <- coerce_int parse_numeric info_gameId set_info_gameId plays_df ;;
  plays_df <- coerce_int parse_numeric info_playId set_info_playId plays_df ;;
  Ok (merge_left tracking_key info_key
        (fun t p => mkEnriched t match p with
                                 | Some p => info_context p
                                 | None => missing_context
                                 end)
        tracking_data plays_df).

(** [filter_player_play_data] *)
Definition filter_player_play_data (player_play_csv : list PlayerPlay)
  : pyresult (DataFrame Route) :=
  let player_play_df := read_csv player_play_csv in
  player_play_df <- coerce_int parse_numeric pp_gameId set_pp_gameId player_play_df ;;
  player_play_df <- coerce_int parse_numeric pp_playId set_pp_playId player_play_df ;;
  player_play_df <- coerce_int parse_numeric pp_nflId set_pp_nflId player_play_df ;;
  Ok (project (fun r => mkRoute (pp_gameId r) (pp_playId r) (pp_nflId r) (routeRan r))
        (loc (fun r => notnull (routeRan r)) player_play_df)).

End WithNumerals.

End Stages.

(** ** numpy reductions on float64 *)

Module Numpy.

Open Scope float_scope.

(** [np.minimum] and [np.maximum] on two float64: a NaN operand wins. *)
Definition minimum (a b : float) : float :=
  if (a <=? b) || is_nan a then a else b.

Definition maximum (a b : float) : float :=
  if (b <=? a) || is_nan a then a else b.

(** [np.min] and [np.max]: the reduction has no identity, so the empty list is
    a ValueError. *)
Definition np_min (l : list float) : pyresult float :=
  match l with
  | [] => Raise ValueError
  | a :: rest => Ok (fold_left minimum rest a)
  end.

Definition np_max (l : list float) : pyresult float :=
  match l with
  | [] => Raise ValueError
  | a :: rest => Ok (fold_left maximum rest a)
  end.

(** The eight running sums of numpy's unrolled summation loop. *)
Definition add_lanes (r a : list float) : list float :=
  map (fun p => fst p + snd p) (combine r a).

Fixpoint accumulate (blocks : nat) (r a : list float) : list float * list float :=
  match blocks with
  | O => (r, a)
  | S blocks' => accumulate blocks' (add_lanes r (firstn 8 a)) (skipn 8 a)
  end.

(** 8 to 128 addends: eight lanes, summed as a tree, then the tail in order. *)
Definition block_sum (l : list float) : float :=
  let n := List.length l in
  let '(r, tail) := accumulate (n / 8 - 1)%nat (firstn 8 l) (skipn 8 l) in
  match r with
  | [r0; r1; r2; r3; r4; r5; r6; r7] =>
      fold_left PrimFloat.add tail (((r0 + r1) + (r2 + r3)) + ((r4 + r5) + (r6 + r7)))
  | _ => nan
  end.

(** numpy's pairwise summation: under 8 addends a plain loop from -0.0, up to
    128 the unrolled block, beyond that the two halves (the left half a
    multiple of 8 long). *)
Fixpoint pairwise_sum (fuel : nat) (l : list float) : float :=
  let n := List.length l in
  if (n <? 8)%nat then fold_left PrimFloat.add l neg_zero
  else if (n <=? 128)%nat then block_sum l
  else match fuel with
       | O => block_sum l
       | S fuel' =>
           let n2 := (n / 2 - (n / 2) mod 8)%nat in
           pairwise_sum fuel' (firstn n2 l) + pairwise_sum fuel' (skipn n2 l)
       end.

(** [np.add.reduce]: the pairwise sum of the addends.  (The reduction adds it
    to the identity of the addition, which changes no sum of distances or of
    squares.) *)
Definition np_sum (l : list float) : float := pairwise_sum (List.length l) l.

Definition count (l : list float) : float :=
  of_uint63 (Uint63.of_Z (Z.of_nat (List.length l))).

(** [np.mean]: the sum over the count (NaN for no element). *)
Definition np_mean (l : list float) : float := np_sum l / count l.

(** [np.std]: the square root of the mean squared deviation from the mean. *)
Definition np_var (l : list float) : float :=
  let arrmean := np_sum l / count l in
  let x := map (fun d => d - arrmean) l in
  let x := map (fun d => d * d) x in
  np_sum x / count l.

Definition np_std (l : list float) : float := sqrt (np_var l).

End Numpy.

(** ** SpatialDistanceEngine: [calculate_player_distances] *)

Module Distance.

Import Pandas.

Definition key3 := (Z * Z * Z)%type.

(** The group key of a row; a row with a missing key component belongs to no
    group ([groupby] drops it).  The key columns are numeric columns. *)
Definition key_of (r : Tracking) : option key3 :=
  match gameId r, playId r, frameId r with
  | Num g, Num p, Num f => Some (g, p, f)
  | _, _, _ => None
  end.

Definition key3_compare (a b : key3) : comparison :=
  let '(g1, p1, f1) := a in
  let '(g2, p2, f2) := b in
  match Z.compare g1 g2 with
  | Eq => match Z.compare p1 p2 with
          | Eq => Z.compare f1 f2
          | c => c
          end
  | c => c
  end.

Definition key3_eqb (a b : key3) : bool :=
  match key3_compare a b with
  | Eq => true
  | _ => false
  end.

(** The keys in ascending order, each once. *)
Fixpoint insert_key (k : key3) (ks : list key3) : list key3 :=
  match ks with
  | [] => [k]
  | h :: rest =>
      match key3_compare k h with
      | Lt => k :: ks
      | Eq => ks
      | Gt => h :: insert_key k rest
      end
  end.

Fixpoint group_keys (rows : list Tracking) : list key3 :=
  match rows with
  | [] => []
  | r :: rest =>
      match key_of r with
      | Some k => insert_key k (group_keys rest)
      | None => group_keys rest
      end
  end.

Definition in_group (k : key3) (r : Tracking) : bool :=
  match key_of r with
  | Some k' => key3_eqb k k'
  | None => false
  end.

(** [df.groupby(['gameId', 'playId', 'frameId'])]: the groups by ascending
    key, the rows of a group in table order. *)
Definition groupby (rows : list Tracking) : list (key3 * list Tracking) :=
  map (fun k => (k, filter (in_group k) rows)) (group_keys rows).

Open Scope float_scope.

(** [np.sqrt((x1 - x2) ** 2 + (y1 - y2) ** 2)]; the square of a float64 is
    taken as its correctly rounded product with itself. *)
Definition square (a : float) : float := a * a.

Definition distance (p q : Tracking) : float :=
  sqrt (square (x p - x q) + square (y p - y q)).

(** The inner loop: [for j in range(len(frame_players)): if i != j: ...]. *)
Definition distances_for_player (frame_players : list Tracking) (i : nat)
  : list float :=
  flat_map
    (fun j =>
       if Nat.eqb i j then []
       else match nth_error frame_players i, nth_error frame_players j with
            | Some p, Some q => [distance p q]
            | _, _ => []
            end)
    (seq 0 (List.length frame_players)).

(** The dict a player adds to [distances]; its entries are evaluated in
    order, [np.min] first. *)
Definition player_summary (k : key3) (frame_players : list Tracking) (i : nat)
  : pyresult (list DistanceSummary) :=
  let distances_for_player := distances_for_player frame_players i in
  match nth_error frame_players i with
  | None => Ok []
  | Some p =>
      lo <- Numpy.np_min distances_for_player ;;
      hi <- Numpy.np_max distances_for_player ;;
      Ok [mkSummary (fst (fst k)) (snd (fst k)) (snd k) (nflId p) lo hi
            (Numpy.np_mean distances_for_player)
            (Numpy.np_std distances_for_player)]
  end.

(** One group: [for i in range(len(frame_players))]. *)
Definition group_summaries (g : key3 * list Tracking)
  : pyresult (list DistanceSummary) :=
  for_each (player_summary (fst g) (snd g)) (seq 0 (List.length (snd g))).

(** [calculate_player_distances]: the rows of the distance table. *)
Definition calculate_player_distances (df : DataFrame Enriched)
  : pyresult (list DistanceSummary) :=
  for_each group_summaries
    (groupby (map (fun r => tracked (tagged r)) (values df))).

End Distance.

(** ** What the stages do to one row *)

Module Rows.

Import Pandas Stages.

Section WithNumerals.

Variable parse_numeric : string -> option Z.

(** A tracking row with its three identifiers coerced. *)
Definition coerce_tracking (r : Tracking) : Tracking :=
  mkTracking (to_numeric_cell parse_numeric (gameId r))
    (to_numeric_cell parse_numeric (playId r))
    (to_numeric_cell parse_numeric (nflId r))
    (frameId r) (frameType r) (x r) (y r) (tracking_rest r).

(** The key of a play once coerced. *)
Definition coerced_play_key (p : Play) : key2 :=
  (to_numeric_cell parse_numeric (play_gameId p),
   to_numeric_cell parse_numeric (play_playId p)).

(** The route row of a player-play row. *)
Definition route_of (r : PlayerPlay) : Route :=
  mkRoute (to_numeric_cell parse_numeric (pp_gameId r))
    (to_numeric_cell parse_numeric (pp_playId r))
    (to_numeric_cell parse_numeric (pp_nflId r))
    (routeRan r).

End WithNumerals.

(** The ingest filter of one tracking row. *)
Definition survives (valid_nfl_ids : list cell) (r : Tracking) : bool :=
  isin valid_nfl_ids (nflId r) && isin frame_types (frameType r).

(** A status cell that stands for a pass play: the boolean true, or a text
    that reads TRUE whatever its case. *)
Definition dropback_true (f : flag) : Prop :=
  f = FBool true \/ exists s, f = FTxt s /\ PyStr.upper s = "TRUE"%string.

Definition is_dropback (p : Play) : bool :=
  String.eqb (normalize_isDropback (isDropback p)) "TRUE".

End Rows.

(** ** Sample tables *)

Module Samples.

Open Scope string_scope.
Open Scope Z_scope.

(** Integer numerals, as [int] reads them: a numeral grammar for the sample
    runs. *)
Definition integer_numerals : string -> option Z := PyStr.parse_int.

(** A player-play file whose first row has a game identifier that is no
    number. *)
Definition player_play_bad_id : list PlayerPlay :=
  [mkPlayerPlay (Txt "abc") (Num 10) (Num 7) (Txt "GO") [];
   mkPlayerPlay (Num 100) (Num 10) (Num 8) Missing [];
   mkPlayerPlay (Num 100) (Num 11) (Num 8) (Txt "SLANT") [("teamAbbr", Txt "KC")]].

(** A tracking file of week 1 with a game identifier that is no number. *)
Definition tracking_bad_id : list Tracking :=
  [mkTracking (Txt "abc") (Num 10) (Num 1) (Num 1) (Txt "SNAP") 0 0 [];
   mkTracking (Num 100) (Num 10) (Num 2) (Num 1) (Txt "AFTER_SNAP") 3 4 [];
   mkTracking (Num 100) (Num 10) (Num 3) (Num 1) (Txt "BEFORE_SNAP") 10 10 []].

(** A roster whose first player has an identifier that is no number. *)
Definition roster_bad_id : list Player :=
  [mkPlayer (Txt "x7") (Txt "QB"); mkPlayer (Num 2) (Txt "WR");
   mkPlayer (Num 3) (Txt "K")].

Definition offensive_positions : list cell :=
  [Txt "QB"; Txt "RB"; Txt "WR"; Txt "TE"; Txt "T"; Txt "G"; Txt "C"].

End Samples.

(** ** The order of binary64 values *)

Module FloatOrder.

(** At most, on the specification of binary64: less or equal as numbers. *)
Definition sf_le (a b : spec_float) : Prop :=
  SFcompare a b = Some Lt \/ SFcompare a b = Some Eq.

End FloatOrder.

(** ** The distance summary in the words of the specification *)

Module DistanceSpec.

Import Pandas Distance.
Open Scope float_scope.

(** A list without its [i]-th element: the other players of a group. *)
Fixpoint others {A : Type} (i : nat) (l : list A) {struct l} : list A :=
  match l with
  | [] => []
  | a :: rest =>
      match i with
      | O => rest
      | S i' => a :: others i' rest
      end
  end.

(** The distances from [p], the [i]-th row of the group, to every other row
    of the group. *)
Definition distances_to_others (rows : list Tracking) (i : nat) (p : Tracking)
  : list float :=
  map (distance p) (others i rows).








(** The rows of a list with their positions. *)
Definition indexed {A : Type} (l : list A) : list (nat * A) :=
  combine (seq 0 (List.length l)) l.

Definition value_or_nan (r : pyresult float) : float :=
  match r with
  | Ok v => v
  | Raise _ => nan
  end.

(** The row the engine adds for [p], the [i]-th row of the group. *)
Definition summary_row (k : key3) (rows : list Tracking) (ip : nat * Tracking)
  : DistanceSummary :=
  let ds := distances_for_player rows (fst ip) in
  mkSummary (fst (fst k)) (snd (fst k)) (snd k) (nflId (snd ip))
    (value_or_nan (Numpy.np_min ds)) (value_or_nan (Numpy.np_max ds))
    (Numpy.np_mean ds) (Numpy.np_std ds).

(** The rows a group adds to the distance table. *)
Definition block (g : key3 * list Tracking) : list DistanceSummary :=
  map (summary_row (fst g) (snd g)) (indexed (snd g)).

(** The order of the group keys. *)
Definition key3_lt (a b : key3) : Prop := key3_compare a b = Lt.

(** The rows [groupby] sees. *)
Definition tracking_rows (df : DataFrame Enriched) : list Tracking :=
  map (fun r => tracked (tagged r)) (values df).

(** Every group of the table has at least two players. *)
Definition all_groups_paired (df : DataFrame Enriched) : bool :=
  forallb (fun g => (2 <=? List.length (snd g))%nat) (groupby (tracking_rows df)).

(** The rows of the distance table that belong to one group. *)
Definition has_key (k : key3) (s : DistanceSummary) : bool :=
  key3_eqb k (ds_gameId s, ds_playId s, ds_frameId s).

Definition statistics (s : DistanceSummary) : float * float * float * float :=
  (min_distance s, max_distance s, mean_distance s, std_distance s).


End DistanceSpec.

(** ** Sample frames *)

Module Frames.

Open Scope Z_scope.

(** A tracked offensive player at a snap frame, with no play context. *)
Definition player (g p f n : Z) (px py : float) : Enriched :=
  mkEnriched
    (mkTagged (mkTracking (Num g) (Num p) (Num n) (Num f) (Txt "SNAP") px py []) 1)
    missing_context.

(** The scenario of the specification: two players at (0,0) and (3,4). *)
Definition two_players : Pandas.DataFrame Enriched :=
  Pandas.range_index 0 [player 100 10 1 1 0 0; player 100 10 1 2 3 4].

(** A frame in which a single player is tracked. *)
Definition lone_player : Pandas.DataFrame Enriched :=
  Pandas.range_index 0 [player 100 10 1 1 0 0].

(** Two players in frame 1 and a single player in frame 2. *)
Definition pair_and_lone : Pandas.DataFrame Enriched :=
  Pandas.range_index 0
    [player 100 10 1 1 0 0; player 100 10 1 2 3 4; player 100 10 2 1 0 0].







End Frames.

(** ** Orchestrator: [main] *)

Module Pipeline.

Import Pandas Stages Distance.
Open Scope Z_scope.
Open Scope string_scope.

(** [valid_positions] *)
Definition valid_positions : list cell :=
  [Txt "QB"; Txt "RB"; Txt "WR"; Txt "TE"; Txt "T"; Txt "G"; Txt "C"].

(** [range(1, 10)], the default of [weeks]. *)
Definition default_weeks : list Z := [1; 2; 3; 4; 5; 6; 7; 8; 9].

(** The default of [chunk_size]. *)
Definition default_chunk_size : nat := Z.to_nat 50000.

(** A row of the enriched table with its [gameClockInSeconds]. *)
Record Clocked : Type := mkClocked {
  enriched : Enriched;
  gameClockInSeconds : option Z
}.

(** A row of the final tracking table: the four distance columns are NaN
    where no row of the distance table matches. *)
Record Final : Type := mkFinal {
  clocked : Clocked;
  final_min_distance : float;
  final_max_distance : float;
  final_mean_distance : float;
  final_std_distance : float
}.

(** [final_tracking_data['gameClock'].apply(convert_game_clock_to_seconds)],
    assigned to the new column. *)
Fixpoint apply_clock (df : DataFrame Enriched) : pyresult (DataFrame Clocked) :=
  match df with
  | [] => Ok []
  | (l, e) :: rest =>
      seconds <- Clock.convert_game_clock_to_seconds (gameClock (play_context e)) ;;
      rest' <- apply_clock rest ;;
      Ok ((l, mkClocked e seconds) :: rest')
  end.

Definition key4 := (cell * cell * cell * cell)%type.

Definition key4_eqb (a b : key4) : bool :=
  let '(a1, a2, a3, a4) := a in
  let '(b1, b2, b3, b4) := b in
  cell_eqb a1 b1 && cell_eqb a2 b2 && cell_eqb a3 b3 && cell_eqb a4 b4.

(** The key of the last merge: ['gameId', 'playId', 'frameId', 'nflId']. *)
Definition clocked_key (c : Clocked) : key4 :=
  let t := tracked (tagged (enriched c)) in
  (gameId t, playId t, frameId t, nflId t).

Definition summary_key (s : DistanceSummary) : key4 :=
  (Num (ds_gameId s), Num (ds_playId s), Num (ds_frameId s), ds_nflId s).

Definition summaries_of (c : Clocked) (distance_metrics : list DistanceSummary)
  : list DistanceSummary :=
  filter (fun s => key4_eqb (clocked_key c) (summary_key s)) distance_metrics.

Definition with_summary (c : Clocked) (s : option DistanceSummary) : Final :=
  match s with
  | Some s =>
      mkFinal c (min_distance s) (max_distance s) (mean_distance s) (std_distance s)
  | None => mkFinal c nan nan nan nan
  end.

(** [final_tracking_data.merge(distance_metrics, on=[...], how='left')]. *)
Definition merge_distances (df : DataFrame Clocked)
  (distance_metrics : list DistanceSummary) : DataFrame Final :=
  range_index 0
    (flat_map (fun c => match summaries_of c distance_metrics with
                        | [] => [with_summary c None]
                        | ms => map (fun s => with_summary c (Some s)) ms
                        end) (values df)).

(** The columns of [tracking_columns] that are not fields of a row here. *)
Definition other_tracking_columns : list string :=
  ["displayName"; "time"; "jerseyNumber"; "club"; "playDirection";
   "s"; "a"; "dis"; "o"; "dir"; "event"].

Fixpoint cell_of (name : string) (cells : list (string * cell)) : option cell :=
  match cells with
  | [] => None
  | (n, c) :: rest => if String.eqb n name then Some c else cell_of name rest
  end.

(** [final_tracking_data[available_columns]] on the columns a row carries
    along: those of [tracking_columns] that the table has, in the order of
    [tracking_columns]. *)
Definition available_columns (cells : list (string * cell)) : list (string * cell) :=
  flat_map (fun name => match cell_of name cells with
                        | Some c => [(name, c)]
                        | None => []
                        end) other_tracking_columns.

Definition select_columns (f : Final) : Final :=
  let c := clocked f in
  let e := enriched c in
  let g := tagged e in
  let t := tracked g in
  mkFinal
    (mkClocked
       (mkEnriched
          (mkTagged
             (mkTracking (gameId t) (playId t) (nflId t) (frameId t) (frameType t)
                (x t) (y t) (available_columns (tracking_rest t)))
             (week g))
          (play_context e))
       (gameClockInSeconds c))
    (final_min_distance f) (final_max_distance f)
    (final_mean_distance f) (final_std_distance f).

Section WithNumerals.

Variable parse_numeric : string -> option Z.

(** [main]: [tracking_week w] holds the rows of [tracking_week_w.csv].  A
    frame without columns ([pd.DataFrame()] when no tracking row survives,
    [pd.DataFrame([])] when no distance row is made) has no key column to
    merge on: a KeyError. *)
Definition main (players_csv : list Player) (tracking_week : Z -> list Tracking)
  (plays_csv : list Play) (player_play_csv : list PlayerPlay)
  : pyresult (DataFrame Final * DataFrame Route) :=
  valid_nfl_ids <-
    filter_players_by_position parse_numeric players_csv valid_positions ;;
  tracking_data <-
    filter_tracking_data parse_numeric
      (map (fun w => (w, tracking_week w)) default_weeks)
      valid_nfl_ids default_chunk_size ;;
  pass_play_data <-
    match tracking_data with
    | [] => _ <- dropback_play_ids parse_numeric plays_csv ;; Raise KeyError
    | _ => filter_for_pass_plays parse_numeric plays_csv tracking_data
    end ;;
  final_tracking_data <- merge_with_plays parse_numeric plays_csv pass_play_data ;;
  clocked_data <- apply_clock final_tracking_data ;;
  distance_metrics <-
    calculate_player_distances (project enriched clocked_data) ;;
  final_tracking_data <-
    match distance_metrics with
    | [] => Raise KeyError
    | _ => Ok (merge_distances clocked_data distance_metrics)
    end ;;
  let final_tracking_data := project select_columns final_tracking_data in
  player_play_data <- filter_player_play_data parse_numeric player_play_csv ;;
  Ok (final_tracking_data, player_play_data).

End WithNumerals.

End Pipeline.
(** ** The tables of the stages, row by row *)

Module Tables.

Import Pandas Stages Rows Distance.

(** The labels of a fresh RangeIndex over [n] rows. *)
Definition range_labels (n : nat) : list label := map Z.of_nat (seq 0 n).

(** A cell that holds a text. *)
Definition is_text (c : cell) : bool :=
  match c with
  | Txt _ => true
  | _ => false
  end.

(** A tracking row as pandas reads it from clean identifier columns,
    whatever the block it is read in: gameId, playId, nflId and frameId are
    numbers or missing. *)
Definition clean_identifiers (r : Tracking) : bool :=
  negb (is_text (gameId r) || is_text (playId r) || is_text (nflId r) ||
        is_text (frameId r)).


(** A tracking row whose three key cells are numbers or missing: the rows
    [groupby] leaves out are then those with a missing key cell. *)
Definition numeric_key (r : Tracking) : bool :=
  negb (is_text (gameId r) || is_text (playId r) || is_text (frameId r)).

(** A tracking row as ingestion returns it: gameId and playId are numbers or
    missing.  (pandas refuses to merge a text column with a number column.) *)
Definition coerced_keys (t : Tagged) : bool :=
  negb (is_text (gameId (tracked t)) || is_text (playId (tracked t))).

(** A tracking row none of whose key cells is missing. *)
Definition complete_key (r : Tracking) : bool :=
  notnull (gameId r) && notnull (playId r) && notnull (frameId r).

(** A tracking row that has a full group key. *)
Definition keyed (r : Tracking) : bool :=
  match key_of r with
  | Some _ => true
  | None => false
  end.

(** A tracking row whose key is one of [ks]. *)
Definition key_among (ks : list key3) (r : Tracking) : bool :=
  existsb (fun k => in_group k r) ks.

(** The group key and the player of a row of the distance table. *)
Definition summary_player (s : DistanceSummary) : key3 * cell :=
  ((ds_gameId s, ds_playId s, ds_frameId s), ds_nflId s).

(** The group key and the player of a tracking row, when it has a key. *)
Definition row_player (r : Tracking) : list (key3 * cell) :=
  match key_of r with
  | Some k => [(k, nflId r)]
  | None => []
  end.

(** Ascending or equal, on group keys. *)
Definition key3_le (a b : key3) : Prop := key3_compare a b <> Gt.

Section WithNumerals.

Variable parse_numeric : string -> option Z.

(** The roster rows with one of the positions. *)
Definition in_positions (positions : list cell) (r : Player) : bool :=
  isin positions (position r).

(** Their identifiers once coerced, each once, in order of first appearance. *)
Definition roster_ids (players : list Player) (positions : list cell) : list cell :=
  unique (map (fun r => to_numeric_cell parse_numeric (player_nflId r))
            (filter (in_positions positions) players)).

(** The rows of the week files that ingestion keeps, tagged and coerced. *)
Definition ingested (weeks : list (Z * list Tracking)) (valid : list cell)
  : list Tagged :=
  flat_map (fun wf => map (fun r => mkTagged (coerce_tracking parse_numeric r) (fst wf))
                        (filter (survives valid) (snd wf))) weeks.

(** A play whose coerced key is the (gameId, playId) of a tracking row. *)
Definition has_key_of (t : Tagged) (p : Play) : bool :=
  key2_eqb (tracking_key t) (coerced_play_key parse_numeric p).

(** The plays of a tracking row, and those with a true status. *)
Definition plays_of (plays : list Play) (t : Tagged) : list Play :=
  filter (has_key_of t) plays.

Definition dropbacks_of (plays : list Play) (t : Tagged) : list Play :=
  filter (has_key_of t) (filter is_dropback plays).

(** The rows of a tracking table that belong to a pass play, each once per
    pass play with its key. *)
Definition pass_rows (plays : list Play) (rows : list Tagged) : list Tagged :=
  flat_map (fun t => map (fun _ => t) (dropbacks_of plays t)) rows.

(** The rows of a tracking table with the context of their plays. *)
Definition enriched_rows (plays : list Play) (rows : list Tagged) : list Enriched :=
  flat_map (fun t => match plays_of plays t with
                     | [] => [mkEnriched t missing_context]
                     | ps => map (fun p => mkEnriched t (context p)) ps
                     end) rows.

End WithNumerals.

End Tables.

(** ** The run of [main], table by table *)

Module Run.

Import Pandas Stages Rows Distance Tables Pipeline.

(** The seconds of a game clock, NaN ([None]) where the text does not read. *)
Definition seconds_of (game_clock : cell) : option Z :=
  match Clock.convert_game_clock_to_seconds game_clock with
  | Ok v => v
  | Raise _ => None
  end.

Definition clock_of (e : Enriched) : Clocked :=
  mkClocked e (seconds_of (gameClock (play_context e))).

(** A tracking row with the columns the final table keeps. *)
Definition kept_columns (t : Tracking) : Tracking :=
  mkTracking (gameId t) (playId t) (nflId t) (frameId t) (frameType t)
    (x t) (y t) (available_columns (tracking_rest t)).

(** The parts of a row of the final table. *)
Definition final_tracking (f : Final) : Tracking :=
  tracked (tagged (enriched (clocked f))).

Definition final_week (f : Final) : Z := week (tagged (enriched (clocked f))).

Definition final_context (f : Final) : Context :=
  play_context (enriched (clocked f)).

Definition final_statistics (f : Final) : float * float * float * float :=
  (final_min_distance f, final_max_distance f,
   final_mean_distance f, final_std_distance f).

(** A row of the final table extends a row of the table the engine ran on:
    the same cells, the tracking columns the final table keeps, and the
    seconds of the game clock. *)
Definition extends (f : Final) (e : Enriched) : Prop :=
  final_tracking f = kept_columns (tracked (tagged e)) /\
  final_week f = week (tagged e) /\
  final_context f = play_context e /\
  gameClockInSeconds (clocked f) = seconds_of (gameClock (play_context e)).


Section WithNumerals.

Variable parse_numeric : string -> option Z.

Definition week_files (tracking_week : Z -> list Tracking)
  : list (Z * list Tracking) :=
  map (fun w => (w, tracking_week w)) default_weeks.

(** The tracking rows of the offensive players before and at the snap. *)
Definition ingest (players : list Player) (tracking_week : Z -> list Tracking)
  : list Tagged :=
  ingested parse_numeric (week_files tracking_week)
    (roster_ids parse_numeric players valid_positions).

(** The table the distance engine runs on: the ingested rows of the pass
    plays with their play context. *)
Definition prepared (players : list Player) (tracking_week : Z -> list Tracking)
  (plays : list Play) : DataFrame Enriched :=
  range_index 0
    (enriched_rows parse_numeric plays
       (pass_rows parse_numeric plays (ingest players tracking_week))).

(** What [main] comes to, once the stages before the distance engine are
    known to return. *)
Definition outcome (players : list Player) (tracking_week : Z -> list Tracking)
  (plays : list Play) (player_play : list PlayerPlay)
  : pyresult (DataFrame Final * DataFrame Route) :=
  match ingest players tracking_week with
  | [] => Raise KeyError
  | _ =>
      let table := prepared players tracking_week plays in
      distance_metrics <- calculate_player_distances table ;;
      match distance_metrics with
      | [] => Raise KeyError
      | _ =>
          player_play_data <- filter_player_play_data parse_numeric player_play ;;
          Ok (project select_columns
                (merge_distances (project clock_of table) distance_metrics),
              player_play_data)
      end
  end.

End WithNumerals.

End Run.

(** ** Sample files *)

Module Files.

Import Pandas.
Open Scope string_scope.
Open Scope Z_scope.

(** A roster: a quarterback, a receiver, a kicker, and a tackle whose
    identifier is missing. *)
Definition roster : list Player :=
  [mkPlayer (Num 1) (Txt "QB"); mkPlayer (Num 2) (Txt "WR");
   mkPlayer (Num 3) (Txt "K"); mkPlayer Missing (Txt "T")].

Definition snap (n g p : cell) (px py : float) : Tracking :=
  mkTracking g p n (Num 1) (Txt "SNAP") px py
    [("displayName", Txt "player"); ("teamColor", Txt "red")].

(** Week 1 of the tracking files: the three players, and the football, which
    has no identifier. *)
Definition week_one : list Tracking :=
  [snap (Num 1) (Num 100) (Num 10) 0 0; snap (Num 2) (Num 100) (Num 10) 3 4;
   snap (Num 3) (Num 100) (Num 10) 10 10; snap Missing (Num 100) (Num 10) 1 1].

Definition tracking_week (w : Z) : list Tracking :=
  if w =? 1 then week_one else [].

Definition first_down : Context :=
  mkContext (Num 1) (Num 1) (Num 10) (Txt "KC") (Num 25) (Txt "15:00") (Num 35).

(** A play file with one pass play. *)
Definition plays : list Play := [mkPlay (Num 100) (Num 10) (FBool true) first_down].

Definition player_play : list PlayerPlay :=
  [mkPlayerPlay (Num 100) (Num 10) (Num 2) (Txt "GO") []].

(** The two offensive players of week 1, ingested. *)
Definition ingested : DataFrame Tagged :=
  range_index 0
    [mkTagged (snap (Num 1) (Num 100) (Num 10) 0 0) 1;
     mkTagged (snap (Num 2) (Num 100) (Num 10) 3 4) 1].

(** A frame in which the second player has no x coordinate. *)
Definition frame_with_nan : DataFrame Enriched :=
  range_index 0
    [Frames.player 100 10 1 1 0 0; Frames.player 100 10 1 2 nan 4;
     Frames.player 100 10 1 3 6 8].

End Files.

(** * Properties *)

(** ** Loops, labels and the coercion idiom *)

Module PandasFacts.

Import Pandas.
Open Scope Z_scope.

Lemma for_each_ok (A B : Type) (body : A -> pyresult (list B))
  (f : A -> list B) (xs : list A) :
  (forall a, In a xs -> body a = Ok (f a)) ->
  for_each body xs = Ok (flat_map f xs).
Proof.
  induction xs as [|a rest IH]; intros Hbody; simpl.
  - reflexivity.
  - rewrite (Hbody a) by (left; reflexivity). simpl.
    rewrite IH by (intros b Hb; apply Hbody; right; exact Hb).
    reflexivity.
Qed.

Lemma for_each_raise (A B : Type) (body : A -> pyresult (list B))
  (e : exn) (xs : list A) :
  (forall a, In a xs -> (exists v, body a = Ok v) \/ body a = Raise e) ->
  (exists a, In a xs /\ body a = Raise e) ->
  for_each body xs = Raise e.
Proof.
  induction xs as [|a rest IH]; intros Hall [b [Hin Hb]]; simpl.
  - destruct Hin.
  - destruct (Hall a (or_introl eq_refl)) as [[v Hv]|Hr].
    + rewrite Hv. simpl. rewrite IH; [reflexivity| |].
      * intros c Hc. apply Hall. right. exact Hc.
      * destruct Hin as [<-|Hin]; [congruence|]. exists b. split; assumption.
    + rewrite Hr. reflexivity.
Qed.

Lemma for_each_inv (A B : Type) (body : A -> pyresult (list B))
  (xs : list A) (out : list B) :
  for_each body xs = Ok out ->
  forall a, In a xs -> exists v, body a = Ok v.
Proof.
  revert out. induction xs as [|a rest IH]; intros out H b Hb.
  - destruct Hb.
  - simpl in H. destruct (body a) as [v|e] eqn:Ha; simpl in H; [|discriminate].
    destruct (for_each body rest) as [more|e] eqn:Hrest; simpl in H; [|discriminate].
    destruct Hb as [<-|Hb].
    + exists v. exact Ha.
    + apply (IH more eq_refl b Hb).
Qed.

Lemma values_range_index (R : Type) (start : Z) (rows : list R) :
  values (range_index start rows) = rows.
Proof.
  revert start. induction rows as [|r rest IH]; intros start; simpl.
  - reflexivity.
  - unfold values in *. simpl. rewrite IH. reflexivity.
Qed.

Lemma range_index_labels_ge (R : Type) (start : Z) (rows : list R) (l : Z) :
  In l (map fst (range_index start rows)) -> start <= l.
Proof.
  revert start. induction rows as [|r rest IH]; intros start H; simpl in H.
  - destruct H.
  - destruct H as [<-|H]; [lia|]. apply IH in H. lia.
Qed.

Lemma range_index_NoDup (R : Type) (start : Z) (rows : list R) :
  NoDup (map fst (range_index start rows)).
Proof.
  revert start. induction rows as [|r rest IH]; intros start; simpl.
  - constructor.
  - constructor; [|apply IH].
    intros H. apply range_index_labels_ge in H. lia.
Qed.

Lemma In_range_index (R : Type) (start : Z) (rows : list R) (l : Z) (r : R) :
  In (l, r) (range_index start rows) <->
  exists i, nth_error rows i = Some r /\ l = start + Z.of_nat i.
Proof.
  revert start. induction rows as [|a rest IH]; intros start; simpl.
  - split; [intros []|intros [[|i] [H _]]; discriminate].
  - split.
    + intros [H|H].
      * inversion H; subst. exists O. split; [reflexivity|lia].
      * apply IH in H. destruct H as [i [Hi ->]].
        exists (S i). split; [exact Hi|lia].
    + intros [[|i] [Hi ->]]; simpl in Hi.
      * left. inversion Hi. f_equal. lia.
      * right. apply IH. exists i. split; [exact Hi|lia].
Qed.

Lemma NoDup_labels_filter (R : Type) (p : label * R -> bool) (df : DataFrame R) :
  NoDup (map fst df) -> NoDup (map fst (filter p df)).
Proof.
  induction df as [|[l r] rest IH]; intros H; simpl.
  - constructor.
  - inversion H as [|? ? Hnotin Hrest]; subst.
    destruct (p (l, r)); simpl.
    + constructor; [|apply IH; exact Hrest].
      intros Hin. apply Hnotin. apply in_map_iff in Hin.
      destruct Hin as [[l' r'] [Heq Hin]]. apply filter_In in Hin.
      apply in_map_iff. exists (l', r'). split; [exact Heq|apply Hin].
    + apply IH. exact Hrest.
Qed.

Lemma lookup_absent (A : Type) (l : label) (s : Series A) :
  ~ In l (map fst s) -> lookup l s = None.
Proof.
  induction s as [|[l' a] rest IH]; intros H; simpl.
  - reflexivity.
  - destruct (Z.eqb_spec l l') as [->|Hne].
    + exfalso. apply H. left. reflexivity.
    + apply IH. intros Hin. apply H. right. exact Hin.
Qed.

Lemma lookup_filter (A : Type) (p : label * A -> bool) (s : Series A)
  (l : label) (a : A) :
  NoDup (map fst s) -> In (l, a) s ->
  lookup l (filter p s) = if p (l, a) then Some a else None.
Proof.
  induction s as [|[l' a'] rest IH]; intros Hnd Hin; [destruct Hin|].
  simpl in Hnd. inversion Hnd as [|? ? Hnotin Hrest]; subst.
  assert (Hsub : forall k, In k (map fst (filter p rest)) -> In k (map fst rest)).
  { intros k Hk. apply in_map_iff in Hk. destruct Hk as [q [Hq Hk]].
    apply filter_In in Hk. apply in_map_iff. exists q. split; [exact Hq|apply Hk]. }
  destruct Hin as [Heq|Hin].
  - inversion Heq; subst. simpl. destruct (p (l, a)); simpl.
    + rewrite Z.eqb_refl. reflexivity.
    + apply lookup_absent. intros Hk. apply Hnotin. apply Hsub. exact Hk.
  - assert (Hne : l <> l').
    { intros ->. apply Hnotin. apply in_map_iff. exists (l', a). split; [reflexivity|exact Hin]. }
    simpl. destruct (p (l', a')); simpl.
    + destruct (Z.eqb_spec l l'); [contradiction|]. apply IH; assumption.
    + apply IH; assumption.
Qed.

Lemma astype_int_numbers (s : Series cell) :
  Forall (fun lc => exists z, snd lc = Num z) s -> astype_int s = Ok s.
Proof.
  induction s as [|[l c] rest IH]; intros H; simpl.
  - reflexivity.
  - inversion H as [|? ? [z Hz] Hrest]; subst. simpl in Hz. subst c. simpl.
    rewrite IH by exact Hrest. reflexivity.
Qed.

Section Coercion.

Variable parse_numeric : string -> option Z.

Lemma to_numeric_cell_shape (c : cell) :
  to_numeric_cell parse_numeric c = Missing \/
  exists z, to_numeric_cell parse_numeric c = Num z.
Proof.
  destruct c as [z|s|]; simpl.
  - right. exists z. reflexivity.
  - destruct (parse_numeric s) as [z|]; [right; exists z; reflexivity|left; reflexivity].
  - left. reflexivity.
Qed.

Lemma to_numeric_cell_idem (c : cell) :
  to_numeric_cell parse_numeric (to_numeric_cell parse_numeric c) =
  to_numeric_cell parse_numeric c.
Proof.
  destruct (to_numeric_cell_shape c) as [->|[z ->]]; reflexivity.
Qed.

(** The coercion idiom raises nothing and drops nothing: every row stays
    under its label, the coerced column missing where the cell is no number. *)
Lemma coerce_int_keeps_rows (R : Type) (get : R -> cell) (set : cell -> R -> R)
  (df : DataFrame R) :
  NoDup (map fst df) ->
  coerce_int parse_numeric get set df =
  Ok (map (fun lr => (fst lr, set (to_numeric_cell parse_numeric (get (snd lr))) (snd lr))) df).
Proof.
  intros Hnd. unfold coerce_int.
  set (s := to_numeric parse_numeric (column get df)).
  assert (Hs : s = map (fun lr => (fst lr, to_numeric_cell parse_numeric (get (snd lr)))) df).
  { unfold s, to_numeric, column. rewrite map_map. reflexivity. }
  assert (Hlabels : map fst s = map fst df).
  { rewrite Hs, map_map. reflexivity. }
  rewrite astype_int_numbers.
  - simpl. f_equal. unfold assign. apply map_ext_in. intros [l r] Hin. simpl.
    f_equal. f_equal. unfold dropna.
    rewrite (@lookup_filter cell (fun lc => notnull (snd lc)) s l
               (to_numeric_cell parse_numeric (get r))).
    + simpl. destruct (to_numeric_cell parse_numeric (get r)); reflexivity.
    + rewrite Hlabels. exact Hnd.
    + rewrite Hs. apply in_map_iff. exists (l, r). split; [reflexivity|exact Hin].
  - unfold dropna. apply Forall_forall. intros [l c] Hin.
    apply filter_In in Hin. destruct Hin as [Hin Hnn]. simpl in *.
    rewrite Hs in Hin. apply in_map_iff in Hin. destruct Hin as [[l' r] [Heq _]].
    inversion Heq; subst.
    destruct (to_numeric_cell_shape (get r)) as [Hm|[z Hz]].
    + rewrite Hm in Hnn. discriminate.
    + exists z. exact Hz.
Qed.

Lemma NoDup_labels_map (R P : Type) (f : label * R -> P) (df : DataFrame R) :
  map fst (map (fun lr => (fst lr, f lr)) df) = map fst df.
Proof. rewrite map_map. reflexivity. Qed.

End Coercion.

Lemma cell_eqb_eq (a b : cell) : cell_eqb a b = true <-> a = b.
Proof.
  destruct a as [m|s|], b as [n|t|]; simpl; split; intros H;
    try discriminate; try reflexivity.
  - apply Z.eqb_eq in H. congruence.
  - inversion H. apply Z.eqb_refl.
  - apply String.eqb_eq in H. congruence.
  - inversion H. apply String.eqb_refl.
Qed.

Lemma isin_In (vals : list cell) (c : cell) :
  isin vals c = true <-> In c vals.
Proof.
  unfold isin. rewrite existsb_exists. split.
  - intros [d [Hd Heq]]. apply cell_eqb_eq in Heq. subst. exact Hd.
  - intros H. exists c. split; [exact H|apply cell_eqb_eq; reflexivity].
Qed.

Lemma key2_eqb_eq (a b : key2) : key2_eqb a b = true <-> a = b.
Proof.
  destruct a as [a1 a2], b as [b1 b2]. unfold key2_eqb. simpl.
  rewrite andb_true_iff, !cell_eqb_eq. split.
  - intros [-> ->]. reflexivity.
  - intros H. inversion H. split; reflexivity.
Qed.

End PandasFacts.

(** ** RouteRecordFilter and the identifier coercion *)

Module RouteFacts.

Import Pandas Stages Rows PandasFacts.
Open Scope Z_scope.

Section WithNumerals.

Variable parse_numeric : string -> option Z.

Lemma filter_player_play_data_eq (csv : list PlayerPlay) :
  filter_player_play_data parse_numeric csv =
  Ok (map (fun lr => (fst lr, route_of parse_numeric (snd lr)))
        (filter (fun lr => notnull (routeRan (snd lr))) (read_csv csv))).
Proof.
  unfold filter_player_play_data.
  rewrite coerce_int_keeps_rows by apply range_index_NoDup. simpl.
  rewrite coerce_int_keeps_rows
    by (rewrite NoDup_labels_map; apply range_index_NoDup). simpl.
  rewrite coerce_int_keeps_rows
    by (rewrite !NoDup_labels_map; apply range_index_NoDup). simpl.
  f_equal. unfold project, loc. rewrite !map_map.
  rewrite filter_map_swap. rewrite map_map. simpl.
  reflexivity.
Qed.

(** C9: the route-record filter returns a table; a row of the file is in it
    (under its label, its identifiers coerced) if and only if its routeRan is
    not null, every row of the table comes from such a row, and the table has
    exactly the columns gameId, playId, nflId, routeRan. *)
Theorem route_filter_keeps_routes (csv : list PlayerPlay) :
  exists out,
    filter_player_play_data parse_numeric csv = Ok out /\
    (forall i r, nth_error csv i = Some r ->
       (notnull (routeRan r) = true <->
        In (Z.of_nat i, route_of parse_numeric r) out)) /\
    (forall l r', In (l, r') out ->
       exists i r, l = Z.of_nat i /\ nth_error csv i = Some r /\
                   notnull (routeRan r) = true /\
                   r' = route_of parse_numeric r) /\
    Forall (fun lr => map fst (route_cells (snd lr)) = route_columns) out.
Proof.
  eexists. split; [apply filter_player_play_data_eq|].
  assert (Hout : forall l r',
    In (l, r') (map (fun lr => (fst lr, route_of parse_numeric (snd lr)))
                  (filter (fun lr => notnull (routeRan (snd lr))) (read_csv csv))) ->
    exists i r, l = Z.of_nat i /\ nth_error csv i = Some r /\
                notnull (routeRan r) = true /\ r' = route_of parse_numeric r).
  { intros l r' Hin. apply in_map_iff in Hin.
    destruct Hin as [[l0 r0] [Heq Hin]]. simpl in Heq. inversion Heq; subst.
    apply filter_In in Hin. destruct Hin as [Hin Hnn]. simpl in Hnn.
    apply In_range_index in Hin. destruct Hin as [i [Hi ->]].
    exists i, r0. repeat split; try assumption; try lia. }
  split; [|split].
  - intros i r Hi. split.
    + intros Hnn. apply in_map_iff. exists (Z.of_nat i, r). split; [reflexivity|].
      apply filter_In. split; [|exact Hnn].
      apply In_range_index. exists i. split; [exact Hi|lia].
    + intros Hin. apply in_map_iff in Hin.
      destruct Hin as [[l0 r0] [Heq Hin]]. simpl in Heq.
      apply filter_In in Hin. destruct Hin as [Hin Hnn]. simpl in Hnn.
      apply In_range_index in Hin. destruct Hin as [j [Hj Hl]].
      inversion Heq as [[Hlab Hroute]].
      assert (j = i) by lia. subst j. rewrite Hi in Hj. inversion Hj; subst.
      exact Hnn.
  - exact Hout.
  - apply Forall_forall. intros [l r'] _. reflexivity.
Qed.

(** The coercion of an identifier never removes a row of the player-play
    table: a row whose routeRan is not null is in the result whatever its
    identifiers are, an identifier that is no number reading as missing. *)
Lemma route_filter_keeps_uncoercible (csv : list PlayerPlay) (i : nat)
  (r : PlayerPlay) :
  nth_error csv i = Some r ->
  notnull (routeRan r) = true ->
  exists out,
    filter_player_play_data parse_numeric csv = Ok out /\
    In (Z.of_nat i, route_of parse_numeric r) out.
Proof.
  intros Hi Hnn. eexists. split; [apply filter_player_play_data_eq|].
  apply in_map_iff. exists (Z.of_nat i, r). split; [reflexivity|].
  apply filter_In. split; [|exact Hnn].
  apply In_range_index. exists i. split; [exact Hi|lia].
Qed.

End WithNumerals.

End RouteFacts.

(** ** TrackingIngest *)

Module IngestFacts.

Import Pandas Stages Rows PandasFacts.
Open Scope Z_scope.

Lemma chunks_of_concat (R : Type) (fuel size : nat) (df : DataFrame R) :
  (List.length df <= fuel)%nat ->
  List.concat (chunks_of fuel (S size) df) = df.
Proof.
  revert df. induction fuel as [|fuel IH]; intros df Hlen.
  - destruct df; [reflexivity|simpl in Hlen; lia].
  - destruct df as [|a rest]; [reflexivity|].
    cbn [chunks_of List.concat]. rewrite IH.
    + apply firstn_skipn.
    + rewrite length_skipn. simpl in *. lia.
Qed.

Lemma chunks_of_NoDup (R : Type) (fuel size : nat) (df : DataFrame R) :
  NoDup (map fst df) ->
  forall c, In c (chunks_of fuel size df) -> NoDup (map fst c).
Proof.
  revert df. induction fuel as [|fuel IH]; intros df Hnd c Hc.
  - destruct Hc.
  - destruct df as [|a rest]; [destruct Hc|].
    cbn [chunks_of] in Hc.
    rewrite <- (firstn_skipn size (a :: rest)), map_app in Hnd.
    destruct Hc as [<-|Hc].
    + apply NoDup_app_remove_r in Hnd. exact Hnd.
    + apply (IH (skipn size (a :: rest))); [|exact Hc].
      apply NoDup_app_remove_l in Hnd. exact Hnd.
Qed.

Lemma for_each_values (A T : Type) (body : A -> pyresult (list (DataFrame T)))
  (g : A -> list T) (xs : list A) :
  (forall a, In a xs -> exists v, body a = Ok v /\ flat_map values v = g a) ->
  exists out, for_each body xs = Ok out /\ flat_map values out = flat_map g xs.
Proof.
  induction xs as [|a rest IH]; intros H.
  - exists []. split; reflexivity.
  - destruct (H a (or_introl eq_refl)) as [v [Hv Hg]].
    destruct IH as [more [Hmore Hflat]].
    { intros b Hb. apply H. right. exact Hb. }
    exists (v ++ more). simpl. rewrite Hv. simpl. rewrite Hmore. simpl.
    split; [reflexivity|]. rewrite flat_map_app, Hg, Hflat. reflexivity.
Qed.

Lemma flat_map_chunks (R T : Type) (f : R -> T) (p : R -> bool)
  (chunks : list (DataFrame R)) :
  flat_map (fun c => map f (filter p (values c))) chunks =
  map f (filter p (values (List.concat chunks))).
Proof.
  induction chunks as [|c rest IH]; simpl.
  - reflexivity.
  - rewrite IH. unfold values. rewrite map_app, filter_app, map_app. reflexivity.
Qed.

Section WithNumerals.

Variable parse_numeric : string -> option Z.

Lemma coerce_three (r : Tracking) :
  let r1 := set_gameId (to_numeric_cell parse_numeric (gameId r)) r in
  let r2 := set_playId (to_numeric_cell parse_numeric (playId r1)) r1 in
  set_nflId (to_numeric_cell parse_numeric (nflId r2)) r2 =
  coerce_tracking parse_numeric r.
Proof. destruct r; reflexivity. Qed.

Lemma filter_chunk_ok (valid : list cell) (week : Z) (chunk : DataFrame Tracking) :
  NoDup (map fst chunk) ->
  exists v,
    filter_chunk parse_numeric valid week chunk = Ok v /\
    flat_map values v =
    map (fun r => mkTagged (coerce_tracking parse_numeric r) week)
      (filter (survives valid) (values chunk)).
Proof.
  intros Hnd. unfold filter_chunk.
  set (kept := loc (fun r => isin valid (nflId r) && isin frame_types (frameType r)) chunk).
  assert (Hkept : NoDup (map fst kept)) by (apply NoDup_labels_filter; exact Hnd).
  rewrite coerce_int_keeps_rows by exact Hkept. simpl.
  rewrite coerce_int_keeps_rows by (rewrite NoDup_labels_map; exact Hkept). simpl.
  rewrite coerce_int_keeps_rows by (rewrite !NoDup_labels_map; exact Hkept). simpl.
  rewrite !map_map. simpl.
  assert (Hvalues : filter (survives valid) (values chunk) = values kept).
  { unfold kept, loc, values, survives. rewrite filter_map_swap. reflexivity. }
  rewrite Hvalues.
  destruct kept as [|[l r] rest] eqn:Hk.
  - exists []. split; reflexivity.
  - eexists. split; [reflexivity|].
    cbn [flat_map]. rewrite app_nil_r. unfold values, project.
    rewrite !map_map. apply map_ext. intros [l' r']. simpl.
    f_equal; try apply coerce_three.
Qed.

Lemma filter_week_ok (valid : list cell) (n : nat) (week_file : Z * list Tracking) :
  exists v,
    filter_week parse_numeric valid (S n) week_file = Ok v /\
    flat_map values v =
    map (fun r => mkTagged (coerce_tracking parse_numeric r) (fst week_file))
      (filter (survives valid) (snd week_file)).
Proof.
  destruct week_file as [week file]. unfold filter_week. cbn [fst snd read_csv_chunks bind].
  set (chunks := chunks_of (List.length file) (S n) (range_index 0 file)).
  destruct (@for_each_values (DataFrame Tracking) Tagged
              (filter_chunk parse_numeric valid week)
              (fun c => map (fun r => mkTagged (coerce_tracking parse_numeric r) week)
                          (filter (survives valid) (values c)))
              chunks) as [week_data [Hwd Hflat]].
  { intros c Hc. apply filter_chunk_ok.
    apply (@chunks_of_NoDup Tracking (List.length file) (S n) (range_index 0 file));
      [apply range_index_NoDup|exact Hc]. }
  rewrite Hwd. cbn [bind].
  assert (Hall : flat_map values week_data =
                 map (fun r => mkTagged (coerce_tracking parse_numeric r) week)
                   (filter (survives valid) file)).
  { rewrite Hflat, flat_map_chunks. unfold chunks.
    rewrite chunks_of_concat.
    - rewrite values_range_index. reflexivity.
    - assert (Hlen : List.length (range_index 0 file) = List.length file).
      { rewrite <- (values_range_index 0 file) at 2. unfold values.
        rewrite length_map. reflexivity. }
      lia. }
  destruct week_data as [|d rest].
  - exists []. split; [reflexivity|]. rewrite <- Hall. reflexivity.
  - eexists. split; [reflexivity|].
    cbn [flat_map]. rewrite app_nil_r. unfold concat_ignore_index.
    rewrite values_range_index. exact Hall.
Qed.

Lemma filter_tracking_data_values (weeks : list (Z * list Tracking))
  (valid : list cell) (n : nat) :
  exists out,
    filter_tracking_data parse_numeric weeks valid (S n) = Ok out /\
    values out =
    flat_map (fun wf => map (fun r => mkTagged (coerce_tracking parse_numeric r) (fst wf))
                          (filter (survives valid) (snd wf))) weeks.
Proof.
  unfold filter_tracking_data.
  destruct (@for_each_values (Z * list Tracking) Tagged
              (filter_week parse_numeric valid (S n))
              (fun wf => map (fun r => mkTagged (coerce_tracking parse_numeric r) (fst wf))
                           (filter (survives valid) (snd wf)))
              weeks) as [all [Hall Hflat]].
  { intros wf _. apply filter_week_ok. }
  rewrite Hall. cbn [bind].
  destruct all as [|d rest].
  - exists []. split; [reflexivity|]. rewrite <- Hflat. reflexivity.
  - eexists. split; [reflexivity|].
    unfold concat_ignore_index. rewrite values_range_index. exact Hflat.
Qed.

Lemma survives_iff (valid : list cell) (r : Tracking) :
  survives valid r = true <->
  In (nflId r) valid /\
  (frameType r = Txt "BEFORE_SNAP" \/ frameType r = Txt "SNAP").
Proof.
  unfold survives. rewrite andb_true_iff, !isin_In. unfold frame_types. simpl.
  split.
  - intros [Hid [H|[H|[]]]]; split; auto.
  - intros [Hid [H|H]]; split; auto.
Qed.

(** C6: for every block size of at least one row, tracking ingestion returns
    a table whose rows are, week after week and in file order, the rows of
    the week files whose nflId is in the valid set and whose frameType is
    BEFORE_SNAP or SNAP, each with its identifiers coerced and tagged with
    the week of its file; a row is in the table if and only if it is such a
    row, and no other frameType is in the table. *)
Theorem ingest_keeps_valid_presnap_rows (weeks : list (Z * list Tracking))
  (valid : list cell) (n : nat) :
  exists out,
    filter_tracking_data parse_numeric weeks valid (S n) = Ok out /\
    values out =
      flat_map (fun wf => map (fun r => mkTagged (coerce_tracking parse_numeric r) (fst wf))
                            (filter (survives valid) (snd wf))) weeks /\
    (forall t, In t (values out) <->
       exists w file r,
         In (w, file) weeks /\ In r file /\
         In (nflId r) valid /\
         (frameType r = Txt "BEFORE_SNAP" \/ frameType r = Txt "SNAP") /\
         t = mkTagged (coerce_tracking parse_numeric r) w) /\
    (forall t, In t (values out) ->
       frameType (tracked t) = Txt "BEFORE_SNAP" \/
       frameType (tracked t) = Txt "SNAP").
Proof.
  destruct (filter_tracking_data_values weeks valid n) as [out [Hout Hvalues]].
  exists out. split; [exact Hout|]. split; [exact Hvalues|].
  assert (Hiff : forall t, In t (values out) <->
    exists w file r,
      In (w, file) weeks /\ In r file /\
      In (nflId r) valid /\
      (frameType r = Txt "BEFORE_SNAP" \/ frameType r = Txt "SNAP") /\
      t = mkTagged (coerce_tracking parse_numeric r) w).
  { intros t. rewrite Hvalues, in_flat_map. split.
    - intros [[w file] [Hin Ht]]. simpl in Ht. apply in_map_iff in Ht.
      destruct Ht as [r [<- Hr]]. apply filter_In in Hr. destruct Hr as [Hr Hs].
      apply survives_iff in Hs. destruct Hs as [Hid Hft].
      exists w, file, r. repeat split; assumption.
    - intros [w [file [r [Hin [Hr [Hid [Hft ->]]]]]]].
      exists (w, file). split; [exact Hin|]. simpl. apply in_map_iff.
      exists r. split; [reflexivity|]. apply filter_In. split; [exact Hr|].
      apply survives_iff. split; assumption. }
  split; [exact Hiff|].
  intros t Ht. apply Hiff in Ht.
  destruct Ht as [w [file [r [_ [_ [_ [Hft ->]]]]]]]. simpl. exact Hft.
Qed.

End WithNumerals.

(** C2: a row whose identifier fails coercion is not dropped.  The Series of
    coerced identifiers loses the cell ([dropna]), but its assignment to the
    column aligns on the row labels and leaves every row in place, the
    identifier missing.  So the player-play row with gameId ["abc"] is in the
    route table, the tracking row with gameId ["abc"] is ingested, and the
    roster row with nflId ["x7"] puts a missing value among the valid
    identifiers; none of the stages raises. *)
Theorem uncoercible_identifier_keeps_the_row :
  filter_player_play_data Samples.integer_numerals Samples.player_play_bad_id =
    Ok [(0, mkRoute Missing (Num 10) (Num 7) (Txt "GO"));
        (2, mkRoute (Num 100) (Num 11) (Num 8) (Txt "SLANT"))] /\
  filter_tracking_data Samples.integer_numerals [(1, Samples.tracking_bad_id)]
    [Num 1; Num 2] 2 =
    Ok [(0, mkTagged
              (mkTracking Missing (Num 10) (Num 1) (Num 1) (Txt "SNAP") 0 0 []) 1)] /\
  filter_players_by_position Samples.integer_numerals Samples.roster_bad_id
    Samples.offensive_positions = Ok [Missing; Num 2].
Proof. repeat split; vm_compute; reflexivity. Qed.

End IngestFacts.

(** ** PassPlayFilter and PlayContextMerge *)

Module JoinFacts.

Import Pandas Stages Rows PandasFacts.
Open Scope Z_scope.
Open Scope string_scope.




Lemma upper_decimal_not_TRUE (d : Decimal.uint) :
  PyStr.upper (DecimalString.NilZero.string_of_uint d) <> "TRUE".
Proof. destruct d; cbn; discriminate. Qed.

Lemma upper_str_of_Z_not_TRUE (z : Z) : PyStr.upper (PyStr.str z) <> "TRUE".
Proof.
  unfold PyStr.str. destruct z as [|p|p]; cbn -[DecimalString.NilZero.string_of_uint].
  - discriminate.
  - apply upper_decimal_not_TRUE.
  - discriminate.
Qed.

(** The rewritten status is ['TRUE'] exactly for the boolean true and for a
    text that reads TRUE whatever its case. *)
Lemma normalize_isDropback_TRUE (f : flag) :
  normalize_isDropback f = "TRUE" <-> dropback_true f.
Proof.
  unfold normalize_isDropback, dropback_true.
  destruct f as [[|]|s|z|]; cbn -[PyStr.str]; split.
  - intros _. left. reflexivity.
  - intros _. reflexivity.
  - discriminate.
  - intros [H|[s [H _]]]; discriminate.
  - intros H. right. exists s. split; [reflexivity|exact H].
  - intros [H|[t [H Hu]]]; [discriminate|]. inversion H; subst. exact Hu.
  - intros H. exfalso. exact (upper_str_of_Z_not_TRUE z H).
  - intros [H|[s [H _]]]; discriminate.
  - discriminate.
  - intros [H|[s [H _]]]; discriminate.
Qed.

Lemma is_dropback_iff (p : Play) :
  is_dropback p = true <-> dropback_true (isDropback p).
Proof.
  unfold is_dropback. rewrite String.eqb_eq. apply normalize_isDropback_TRUE.
Qed.

Section WithNumerals.

Variable parse_numeric : string -> option Z.

Lemma dropback_play_ids_values (plays_csv : list Play) :
  exists ids,
    dropback_play_ids parse_numeric plays_csv = Ok ids /\
    values ids =
    map (fun p => mkPlayKey (to_numeric_cell parse_numeric (play_gameId p))
                   (to_numeric_cell parse_numeric (play_playId p)))
      (filter is_dropback plays_csv).
Proof.
  unfold dropback_play_ids.
  set (ids := project _ (loc _ (project _ (read_csv plays_csv)))).
  assert (Hnd : NoDup (map fst ids)).
  { unfold ids, project, loc. rewrite !NoDup_labels_map.
    apply NoDup_labels_filter. rewrite NoDup_labels_map. apply range_index_NoDup. }
  rewrite coerce_int_keeps_rows by exact Hnd. cbn [bind].
  rewrite coerce_int_keeps_rows by (rewrite NoDup_labels_map; exact Hnd). cbn [bind].
  eexists. split; [reflexivity|].
  unfold values, ids, project, loc. rewrite !map_map.
  rewrite filter_map_swap, !map_map. cbn [fst snd].
  rewrite <- (values_range_index 0 plays_csv) at 2. unfold values, read_csv.
  rewrite filter_map_swap, map_map. unfold is_dropback. reflexivity.
Qed.



Lemma merge_with_plays_eq (plays_csv : list Play) (tracking_data : DataFrame Tagged) :
  exists infos,
    values infos =
      map (fun p => mkPlayInfo (to_numeric_cell parse_numeric (play_gameId p))
                     (to_numeric_cell parse_numeric (play_playId p)) (context p))
        plays_csv /\
    merge_with_plays parse_numeric plays_csv tracking_data =
    Ok (merge_left tracking_key info_key
          (fun t p => mkEnriched t match p with
                                   | Some p => info_context p
                                   | None => missing_context
                                   end)
          tracking_data infos).
Proof.
  unfold merge_with_plays.
  assert (Hnd : NoDup (map fst (project
            (fun p => mkPlayInfo (play_gameId p) (play_playId p) (context p))
            (read_csv plays_csv)))).
  { unfold project. rewrite NoDup_labels_map. apply range_index_NoDup. }
  rewrite coerce_int_keeps_rows by exact Hnd. cbn [bind].
  rewrite coerce_int_keeps_rows by (rewrite NoDup_labels_map; exact Hnd). cbn [bind].
  eexists. split; [|reflexivity].
  unfold values, project. rewrite !map_map. cbn [fst snd].
  rewrite <- (values_range_index 0 plays_csv) at 2. unfold values, read_csv.
  rewrite map_map. reflexivity.
Qed.



End WithNumerals.

End JoinFacts.

(** ** ClockNormalizer *)

Module ClockFacts.

Import PyStr Clock.
Open Scope string_scope.
Open Scope Z_scope.







(** *** Printing an integer and reading it back *)
























End ClockFacts.

(** ** Order of binary64 floats *)

Module FloatFacts.

Import FloatOrder.
Open Scope float_scope.

Ltac order_facts :=
  repeat match goal with
  | H : context [Pos.compare_cont Eq ?a ?b] |- _ =>
      change (Pos.compare_cont Eq a b) with (Pos.compare a b) in H
  | |- context [Pos.compare_cont Eq ?a ?b] =>
      change (Pos.compare_cont Eq a b) with (Pos.compare a b)
  | H : context [Z.compare ?a ?b] |- _ =>
      destruct (Z.compare_spec a b); try discriminate; try subst
  | |- context [Z.compare ?a ?b] =>
      destruct (Z.compare_spec a b); try discriminate; try subst
  | H : context [Pos.compare ?a ?b] |- _ =>
      destruct (Pos.compare_spec a b); try discriminate; try subst
  | |- context [Pos.compare ?a ?b] =>
      destruct (Pos.compare_spec a b); try discriminate; try subst
  end.


Lemma SFcompare_None (a b : spec_float) :
  SFcompare a b = None <-> a = S754_nan \/ b = S754_nan.
Proof.
  destruct a as [s|s| |s m e], b as [s'|s'| |s' m' e']; simpl;
    split; intros H; try discriminate; try (destruct H; discriminate);
    auto.
Qed.


Lemma SFcompare_antisym (a b : spec_float) (c : comparison) :
  SFcompare a b = Some c -> SFcompare b a = Some (CompOpp c).
Proof.
  destruct a as [sa|sa| |sa ma ea], b as [sb|sb| |sb mb eb];
    simpl; try (destruct sa); try (destruct sb); simpl;
    intros H; try discriminate; inversion H; subst; try reflexivity;
    order_facts; simpl in *; try discriminate; auto; try lia.
Qed.

Lemma SFsqrt_sign (a : spec_float) :
  SFcompare (SFsqrt prec emax a) (S754_zero false) <> Some Lt.
Proof.
  destruct a as [s|s| |s m e]; try (destruct s); try (cbv; congruence).
  unfold SFsqrt.
  destruct (SFsqrt_core_binary prec emax (Z.pos m) e) as [[mz ez] lz].
  unfold binary_round_aux.
  destruct (shr_fexp prec emax mz ez lz) as [mrs e'].
  destruct (shr_fexp prec emax _ e' loc_Exact) as [mrs2 e2].
  destruct (shr_m mrs2); try (cbv; congruence).
  destruct (e2 <=? emax - prec)%Z; cbv; congruence.
Qed.

(** *** The primitive comparisons *)

Lemma is_nan_spec (a : float) : is_nan a = true <-> Prim2SF a = S754_nan.
Proof.
  unfold is_nan. rewrite eqb_spec. unfold SFeqb. split.
  - intros H. destruct (SFcompare (Prim2SF a) (Prim2SF a)) as [[| |]|] eqn:Hc;
      try discriminate.
    + apply SFcompare_antisym in Hc as Hc'. simpl in Hc'. congruence.
    + apply SFcompare_antisym in Hc as Hc'. simpl in Hc'. congruence.
    + apply SFcompare_None in Hc. destruct Hc; assumption.
  - intros ->. reflexivity.
Qed.

Lemma not_nan_spec (a : float) : is_nan a = false <-> Prim2SF a <> S754_nan.
Proof.
  rewrite <- is_nan_spec. destruct (is_nan a); split; congruence.
Qed.

Lemma leb_sf (a b : float) : (a <=? b) = true <-> sf_le (Prim2SF a) (Prim2SF b).
Proof.
  rewrite leb_spec. unfold SFleb, sf_le.
  destruct (SFcompare (Prim2SF a) (Prim2SF b)) as [[| |]|]; split;
    try discriminate; auto; intros [H|H]; discriminate.
Qed.

Lemma ltb_sf (a b : float) :
  (a <? b) = true <-> SFcompare (Prim2SF a) (Prim2SF b) = Some Lt.
Proof.
  rewrite ltb_spec. unfold SFltb.
  destruct (SFcompare (Prim2SF a) (Prim2SF b)) as [[| |]|]; split;
    try discriminate; auto.
Qed.




Lemma leb_not_nan (a b : float) :
  (a <=? b) = true -> is_nan a = false /\ is_nan b = false.
Proof.
  rewrite leb_sf, !not_nan_spec. unfold sf_le. intros H.
  split; intros Hn; rewrite Hn in H; simpl in H.
  - destruct H; discriminate.
  - destruct (Prim2SF a); simpl in H; destruct H; discriminate.
Qed.

Lemma leb_nan_l (a b : float) : is_nan a = true -> (a <=? b) = false.
Proof.
  intros Ha. destruct (a <=? b) eqn:H; [|reflexivity].
  apply leb_not_nan in H. destruct H. congruence.
Qed.

Lemma leb_nan_r (a b : float) : is_nan b = true -> (a <=? b) = false.
Proof.
  intros Hb. destruct (a <=? b) eqn:H; [|reflexivity].
  apply leb_not_nan in H. destruct H. congruence.
Qed.




Lemma Prim2SF_zero : Prim2SF 0 = S754_zero false.
Proof. reflexivity. Qed.

(** A square root is never negative. *)
Lemma sqrt_not_negative (a : float) : (sqrt a <? 0) = false.
Proof.
  destruct (sqrt a <? 0) eqn:H; [|reflexivity].
  apply ltb_sf in H. rewrite sqrt_spec, Prim2SF_zero in H.
  exfalso. exact (SFsqrt_sign (Prim2SF a) H).
Qed.


End FloatFacts.

(** ** The reductions *)

Module NumpyFacts.

Import Numpy DistanceSpec FloatFacts.
Open Scope float_scope.

Lemma minimum_nan (a b : float) :
  is_nan a = true \/ is_nan b = true -> is_nan (minimum a b) = true.
Proof.
  unfold minimum. intros [Ha|Hb].
  - rewrite Ha, orb_true_r. exact Ha.
  - destruct (is_nan a) eqn:Ha.
    + rewrite orb_true_r. exact Ha.
    + rewrite (leb_nan_r a b Hb). simpl. exact Hb.
Qed.

Lemma maximum_nan (a b : float) :
  is_nan a = true \/ is_nan b = true -> is_nan (maximum a b) = true.
Proof.
  unfold maximum. intros [Ha|Hb].
  - rewrite Ha, orb_true_r. exact Ha.
  - destruct (is_nan a) eqn:Ha.
    + rewrite orb_true_r. exact Ha.
    + rewrite (leb_nan_l b a Hb). simpl. exact Hb.
Qed.





Lemma fold_minimum_nan (rest : list float) (a : float) :
  existsb is_nan (a :: rest) = true ->
  is_nan (fold_left minimum rest a) = true.
Proof.
  revert a. induction rest as [|b rest IH]; intros a H; simpl in *.
  - rewrite orb_false_r in H. exact H.
  - apply IH. simpl. rewrite orb_assoc in H.
    apply orb_true_iff in H. destruct H as [H|H].
    + rewrite minimum_nan; [reflexivity|]. apply orb_true_iff in H. exact H.
    + rewrite H. apply orb_true_r.
Qed.

Lemma fold_maximum_nan (rest : list float) (a : float) :
  existsb is_nan (a :: rest) = true ->
  is_nan (fold_left maximum rest a) = true.
Proof.
  revert a. induction rest as [|b rest IH]; intros a H; simpl in *.
  - rewrite orb_false_r in H. exact H.
  - apply IH. simpl. rewrite orb_assoc in H.
    apply orb_true_iff in H. destruct H as [H|H].
    + rewrite maximum_nan; [reflexivity|]. apply orb_true_iff in H. exact H.
    + rewrite H. apply orb_true_r.
Qed.



Lemma np_min_ok (l : list float) : l <> [] -> exists m, np_min l = Ok m.
Proof. destruct l; [contradiction|]. intros _. eexists. reflexivity. Qed.

Lemma np_max_ok (l : list float) : l <> [] -> exists m, np_max l = Ok m.
Proof. destruct l; [contradiction|]. intros _. eexists. reflexivity. Qed.

Lemma count_map (A : Type) (f : A -> float) (g : float -> float) (l : list float) :
  count (map g l) = count l.
Proof. unfold count. rewrite length_map. reflexivity. Qed.



(** Under eight addends the sum is the plain loop over the list. *)
Lemma np_sum_short (l : list float) :
  (List.length l < 8)%nat -> np_sum l = fold_left PrimFloat.add l neg_zero.
Proof.
  intros H. unfold np_sum. apply Nat.ltb_lt in H.
  destruct (List.length l) as [|fuel] eqn:Hlen at 1;
    cbn [pairwise_sum]; cbv zeta; rewrite H; reflexivity.
Qed.


End NumpyFacts.

(** ** SpatialDistanceEngine *)

Unset Implicit Arguments.

Module DistanceFacts.

Import Pandas Numpy Distance DistanceSpec FloatFacts NumpyFacts PandasFacts.

Lemma flat_map_seq_shift (B : Type) (g : nat -> list B) (n : nat) :
  flat_map g (seq 1 n) = flat_map (fun j => g (S j)) (seq 0 n).
Proof.
  rewrite <- seq_shift. rewrite !flat_map_concat_map, map_map. reflexivity.
Qed.

(** The inner loop over [j], from position [k] on. *)
Lemma inner_loop (f : Tracking -> float) (l : list Tracking) (i k : nat) :
  flat_map (fun j => if Nat.eqb i (k + j) then []
                     else match nth_error l j with
                          | Some q => [f q]
                          | None => []
                          end) (seq 0 (List.length l)) =
  map f (if (i <? k)%nat then l else others (i - k) l).
Proof.
  revert k. induction l as [|a rest IH]; intros k.
  - simpl. destruct (i <? k)%nat; reflexivity.
  - cbn [List.length seq flat_map nth_error].
    rewrite flat_map_seq_shift.
    rewrite (flat_map_ext _ (fun j => if Nat.eqb i (S k + j) then []
                                     else match nth_error rest j with
                                          | Some q => [f q]
                                          | None => []
                                          end)).
    2: { intros j. replace (k + S j)%nat with (S k + j)%nat by lia. reflexivity. }
    rewrite IH. replace (k + 0)%nat with k by lia.
    destruct (Nat.eqb_spec i k) as [->|Hne].
    + rewrite Nat.sub_diag.
      destruct (Nat.ltb_spec k (S k)); [|lia].
      destruct (Nat.ltb_spec k k); [lia|]. reflexivity.
    + destruct (Nat.ltb_spec i k) as [Hlt|Hge].
      * destruct (Nat.ltb_spec i (S k)); [|lia]. reflexivity.
      * destruct (Nat.ltb_spec i (S k)); [lia|].
        replace (i - k)%nat with (S (i - S k)) by lia. reflexivity.
Qed.

(** The distances the engine gathers for a player are those to the other
    rows of the group, in row order. *)
Lemma distances_for_player_others (rows : list Tracking) (i : nat) (p : Tracking) :
  nth_error rows i = Some p ->
  distances_for_player rows i = distances_to_others rows i p.
Proof.
  intros Hp. unfold distances_for_player, distances_to_others. rewrite Hp.
  pose proof (inner_loop (distance p) rows i 0) as H.
  rewrite Nat.sub_0_r in H. cbn [Nat.ltb Nat.leb] in H.
  rewrite <- H. apply flat_map_ext. intros j. reflexivity.
Qed.

Lemma length_others (A : Type) (l : list A) (i : nat) :
  (i < List.length l)%nat -> List.length (others i l) = (List.length l - 1)%nat.
Proof.
  revert i. induction l as [|a rest IH]; intros i Hi; simpl in *; [lia|].
  destruct i as [|i]; [lia|]. simpl. rewrite IH by lia. lia.
Qed.


Lemma length_indexed (A : Type) (l : list A) :
  List.length (indexed l) = List.length l.
Proof.
  unfold indexed. rewrite length_combine, length_seq. lia.
Qed.

(** The outer loop over [i] visits every row with its position. *)
Lemma outer_loop (B : Type) (G : nat * Tracking -> B) (l : list Tracking) (k : nat) :
  flat_map (fun j => match nth_error l j with
                     | Some q => [G ((k + j)%nat, q)]
                     | None => []
                     end) (seq 0 (List.length l)) =
  map G (combine (seq k (List.length l)) l).
Proof.
  revert k. induction l as [|a rest IH]; intros k; [reflexivity|].
  cbn [List.length seq flat_map nth_error combine map].
  rewrite flat_map_seq_shift.
  rewrite (flat_map_ext _ (fun j => match nth_error rest j with
                                   | Some q => [G ((S k + j)%nat, q)]
                                   | None => []
                                   end)).
  2: { intros j. replace (k + S j)%nat with (S k + j)%nat by lia. reflexivity. }
  rewrite IH. replace (k + 0)%nat with k by lia. reflexivity.
Qed.

(** A player of a group of at least two gets one row. *)
Lemma player_summary_paired (k : key3) (rows : list Tracking) (i : nat) (p : Tracking) :
  (2 <= List.length rows)%nat -> nth_error rows i = Some p ->
  player_summary k rows i = Ok [summary_row k rows (i, p)].
Proof.
  intros Hlen Hp. unfold player_summary, summary_row. rewrite Hp. cbn [fst snd].
  assert (Hne : distances_for_player rows i <> []).
  { rewrite (distances_for_player_others rows i p Hp). unfold distances_to_others.
    intros H. apply (f_equal (@List.length float)) in H.
    rewrite length_map, length_others in H; [simpl in H; lia|].
    apply nth_error_Some. congruence. }
  destruct (@np_min_ok _ Hne) as [lo Hlo]. destruct (@np_max_ok _ Hne) as [hi Hhi].
  rewrite Hlo, Hhi. reflexivity.
Qed.

(** A player alone in its group: [np.min] of no distance. *)
Lemma player_summary_alone (k : key3) (p : Tracking) :
  player_summary k [p] 0 = Raise ValueError.
Proof. reflexivity. Qed.

Lemma player_summary_cases (k : key3) (rows : list Tracking) (i : nat) :
  (exists v, player_summary k rows i = Ok v) \/
  player_summary k rows i = Raise ValueError.
Proof.
  unfold player_summary. destruct (nth_error rows i) as [p|].
  - destruct (distances_for_player rows i) as [|d ds].
    + right. reflexivity.
    + left. eexists. reflexivity.
  - left. eexists. reflexivity.
Qed.

Lemma for_each_cases (A B : Type) (body : A -> pyresult (list B)) (e : exn)
  (xs : list A) :
  (forall a, In a xs -> (exists v, body a = Ok v) \/ body a = Raise e) ->
  (exists v, for_each body xs = Ok v) \/ for_each body xs = Raise e.
Proof.
  induction xs as [|a rest IH]; intros H.
  - left. eexists. reflexivity.
  - simpl. destruct (H a (or_introl eq_refl)) as [[v Hv]|Hr].
    + rewrite Hv. simpl.
      destruct IH as [[w Hw]|Hr]; [intros b Hb; apply H; right; exact Hb| |].
      * rewrite Hw. left. eexists. reflexivity.
      * rewrite Hr. right. reflexivity.
    + rewrite Hr. right. reflexivity.
Qed.

Lemma group_summaries_cases (g : key3 * list Tracking) :
  (exists v, group_summaries g = Ok v) \/ group_summaries g = Raise ValueError.
Proof.
  unfold group_summaries. apply for_each_cases.
  intros i _. apply player_summary_cases.
Qed.

Lemma group_summaries_alone (k : key3) (p : Tracking) :
  group_summaries (k, [p]) = Raise ValueError.
Proof. reflexivity. Qed.

Lemma group_summaries_paired (k : key3) (rows : list Tracking) :
  (2 <= List.length rows)%nat ->
  group_summaries (k, rows) = Ok (map (summary_row k rows) (indexed rows)).
Proof.
  intros Hlen. unfold group_summaries, indexed. cbn [fst snd].
  rewrite <- (outer_loop _ (summary_row k rows) rows 0).
  apply for_each_ok. intros i Hi. apply in_seq in Hi.
  destruct (nth_error rows i) as [p|] eqn:Hp.
  - rewrite (player_summary_paired k rows i p Hlen Hp). reflexivity.
  - apply nth_error_None in Hp. lia.
Qed.

(** *** The groups *)

Ltac key3_facts :=
  unfold key3_lt, key3_compare in *;
  repeat match goal with
  | k : key3 |- _ => destruct k as [[? ?] ?]
  end;
  repeat match goal with
  | H : context [Z.compare ?a ?b] |- _ =>
      destruct (Z.compare_spec a b); try discriminate; try subst
  | |- context [Z.compare ?a ?b] =>
      destruct (Z.compare_spec a b); try discriminate; try subst
  end.

Lemma key3_compare_eq (a b : key3) : key3_compare a b = Eq <-> a = b.
Proof.
  split.
  - intros H. key3_facts. reflexivity.
  - intros ->. destruct b as [[g p] f]. unfold key3_compare.
    rewrite !Z.compare_refl. reflexivity.
Qed.

Lemma key3_eqb_eq (a b : key3) : key3_eqb a b = true <-> a = b.
Proof.
  unfold key3_eqb. rewrite <- key3_compare_eq.
  destruct (key3_compare a b); split; congruence.
Qed.

Lemma key3_lt_trans (a b c : key3) : key3_lt a b -> key3_lt b c -> key3_lt a c.
Proof. intros H1 H2. key3_facts; try reflexivity; lia. Qed.

Lemma key3_gt_lt (a b : key3) : key3_compare a b = Gt -> key3_lt b a.
Proof. intros H. key3_facts; try reflexivity; lia. Qed.

Lemma key3_lt_irrefl (a : key3) : ~ key3_lt a a.
Proof.
  unfold key3_lt. intros H.
  rewrite (proj2 (key3_compare_eq a a) eq_refl) in H. discriminate.
Qed.

Lemma In_insert_key (k k' : key3) (ks : list key3) :
  In k' (insert_key k ks) <-> k' = k \/ In k' ks.
Proof.
  induction ks as [|h rest IH]; simpl.
  - split; [intros [H|[]]; left; congruence|intros [H|[]]; left; congruence].
  - destruct (key3_compare k h) eqn:Hc; simpl.
    + apply key3_compare_eq in Hc. subst h. intuition congruence.
    + split; [intros [H|H]; [left; congruence|right; exact H]
             |intros [H|H]; [left; congruence|right; exact H]].
    + rewrite IH. tauto.
Qed.

Lemma insert_key_sorted (k : key3) (ks : list key3) :
  StronglySorted key3_lt ks -> StronglySorted key3_lt (insert_key k ks).
Proof.
  induction ks as [|h rest IH]; intros Hs; simpl.
  - constructor; constructor.
  - apply StronglySorted_inv in Hs. destruct Hs as [Hrest Hh].
    destruct (key3_compare k h) eqn:Hc.
    + constructor; assumption.
    + constructor; [constructor; assumption|].
      constructor; [exact Hc|].
      apply Forall_forall. intros c Hin.
      apply (key3_lt_trans k h c Hc). rewrite Forall_forall in Hh. apply Hh. exact Hin.
    + constructor; [apply IH; exact Hrest|].
      apply Forall_forall. intros c Hin. apply In_insert_key in Hin.
      destruct Hin as [->|Hin].
      * apply key3_gt_lt. exact Hc.
      * rewrite Forall_forall in Hh. apply Hh. exact Hin.
Qed.

(** The groups come by ascending key. *)
Lemma group_keys_sorted (rows : list Tracking) :
  StronglySorted key3_lt (group_keys rows).
Proof.
  induction rows as [|r rest IH]; simpl.
  - constructor.
  - destruct (key_of r); [apply insert_key_sorted|]; exact IH.
Qed.

Lemma sorted_NoDup (ks : list key3) : StronglySorted key3_lt ks -> NoDup ks.
Proof.
  induction ks as [|h rest IH]; intros Hs.
  - constructor.
  - apply StronglySorted_inv in Hs. destruct Hs as [Hrest Hh].
    constructor; [|apply IH; exact Hrest].
    intros Hin. rewrite Forall_forall in Hh.
    exact (key3_lt_irrefl h (Hh h Hin)).
Qed.

Lemma In_group_keys (rows : list Tracking) (k : key3) :
  In k (group_keys rows) <-> exists r, In r rows /\ key_of r = Some k.
Proof.
  induction rows as [|r rest IH]; simpl.
  - split; [intros []|intros [r [[] _]]].
  - destruct (key_of r) as [k0|] eqn:Hk.
    + rewrite In_insert_key, IH. split.
      * intros [->|[r' [Hin Hr']]].
        -- exists r. split; [left; reflexivity|exact Hk].
        -- exists r'. split; [right; exact Hin|exact Hr'].
      * intros [r' [[<-|Hin] Hr']].
        -- left. congruence.
        -- right. exists r'. split; assumption.
    + rewrite IH. split.
      * intros [r' [Hin Hr']]. exists r'. split; [right; exact Hin|exact Hr'].
      * intros [r' [[<-|Hin] Hr']]; [congruence|].
        exists r'. split; assumption.
Qed.

Lemma groupby_keys (rows : list Tracking) :
  map fst (groupby rows) = group_keys rows.
Proof. unfold groupby. rewrite map_map. simpl. apply map_id. Qed.

Lemma In_groupby (rows : list Tracking) (k : key3) (g : list Tracking) :
  In (k, g) (groupby rows) <->
  In k (group_keys rows) /\ g = filter (in_group k) rows.
Proof.
  unfold groupby. rewrite in_map_iff. split.
  - intros [k' [Heq Hin]]. inversion Heq; subst. split; [exact Hin|reflexivity].
  - intros [Hin ->]. exists k. split; [reflexivity|exact Hin].
Qed.

Lemma in_group_iff (k : key3) (r : Tracking) :
  in_group k r = true <-> key_of r = Some k.
Proof.
  unfold in_group. destruct (key_of r) as [k'|].
  - rewrite key3_eqb_eq. split; congruence.
  - split; discriminate.
Qed.


Lemma summary_row_key (k : key3) (rows : list Tracking) (ip : nat * Tracking) :
  (ds_gameId (summary_row k rows ip), ds_playId (summary_row k rows ip),
   ds_frameId (summary_row k rows ip)) = k.
Proof. destruct k as [[g p] f]. reflexivity. Qed.

Lemma filter_block (k : key3) (g : key3 * list Tracking) :
  filter (has_key k) (block g) = if key3_eqb k (fst g) then block g else [].
Proof.
  unfold block.
  assert (H : forall l, filter (has_key k) (map (summary_row (fst g) (snd g)) l) =
                        if key3_eqb k (fst g)
                        then map (summary_row (fst g) (snd g)) l else []).
  { induction l as [|ip l IH]; simpl.
    - destruct (key3_eqb k (fst g)); reflexivity.
    - unfold has_key at 1. rewrite summary_row_key, IH.
      destruct (key3_eqb k (fst g)); reflexivity. }
  apply H.
Qed.

Lemma pick_group (k : key3) (rows : list Tracking)
  (gs : list (key3 * list Tracking)) :
  NoDup (map fst gs) -> In (k, rows) gs ->
  filter (has_key k) (flat_map block gs) = block (k, rows).
Proof.
  induction gs as [|g rest IH]; intros Hnd Hin; [destruct Hin|].
  simpl in Hnd. inversion Hnd as [|? ? Hnotin Hrest]; subst.
  cbn [flat_map]. rewrite filter_app, filter_block.
  assert (Hnone : forall l, ~ In k (map fst l) ->
                            filter (has_key k) (flat_map block l) = []).
  { induction l as [|g' l IHl]; intros Hk; [reflexivity|].
    cbn [flat_map]. rewrite filter_app, filter_block.
    destruct (key3_eqb k (fst g')) eqn:He.
    - apply key3_eqb_eq in He. exfalso. apply Hk. left. congruence.
    - simpl. apply IHl. intros H. apply Hk. right. exact H. }
  destruct Hin as [->|Hin].
  - cbn [fst]. rewrite (proj2 (key3_eqb_eq k k) eq_refl).
    rewrite Hnone by exact Hnotin. apply app_nil_r.
  - destruct (key3_eqb k (fst g)) eqn:He.
    + apply key3_eqb_eq in He. exfalso. apply Hnotin. rewrite <- He.
      apply in_map_iff. exists (k, rows). split; [reflexivity|exact Hin].
    + simpl. apply IH; assumption.
Qed.

Lemma all_groups_paired_iff (df : DataFrame Enriched) :
  all_groups_paired df = true <->
  forall g, In g (groupby (tracking_rows df)) -> (2 <= List.length (snd g))%nat.
Proof.
  unfold all_groups_paired. rewrite forallb_forall. split.
  - intros H g Hg. apply Nat.leb_le. apply H. exact Hg.
  - intros H g Hg. apply Nat.leb_le. apply H. exact Hg.
Qed.

(** The engine on a table whose groups all have at least two players. *)
Lemma calculate_paired (df : DataFrame Enriched) :
  all_groups_paired df = true ->
  calculate_player_distances df = Ok (flat_map block (groupby (tracking_rows df))).
Proof.
  intros Hp. unfold calculate_player_distances.
  fold (tracking_rows df). apply for_each_ok.
  intros [k rows] Hg. apply group_summaries_paired.
  apply (proj1 (all_groups_paired_iff df) Hp (k, rows) Hg).
Qed.

(** The engine on a table with a group of one player: the ValueError of
    [np.min] ends the run. *)
Lemma calculate_with_lone_player (df : DataFrame Enriched) (k : key3) (p : Tracking) :
  In (k, [p]) (groupby (tracking_rows df)) ->
  calculate_player_distances df = Raise ValueError.
Proof.
  intros Hg. unfold calculate_player_distances. fold (tracking_rows df).
  apply for_each_raise.
  - intros g _. apply group_summaries_cases.
  - exists (k, [p]). split; [exact Hg|apply group_summaries_alone].
Qed.

(** *** When the engine returns *)

Lemma group_not_empty (rows : list Tracking) (k : key3) (g : list Tracking) :
  In (k, g) (groupby rows) -> g <> [].
Proof.
  intros Hg. apply In_groupby in Hg. destruct Hg as [Hk ->].
  apply In_group_keys in Hk. destruct Hk as [r [Hin Hr]].
  intros Hnil.
  assert (Hr' : In r (filter (in_group k) rows)).
  { apply filter_In. split; [exact Hin|]. apply in_group_iff. exact Hr. }
  rewrite Hnil in Hr'. destruct Hr'.
Qed.

Lemma calculate_ok_paired (df : DataFrame Enriched) (out : list DistanceSummary) :
  calculate_player_distances df = Ok out -> all_groups_paired df = true.
Proof.
  intros Hout. apply all_groups_paired_iff. intros [k g] Hg. cbn [snd].
  pose proof (group_not_empty _ _ _ Hg) as Hne.
  destruct g as [|p [|q rest]]; [contradiction| |simpl; lia].
  rewrite (calculate_with_lone_player df k p Hg) in Hout. discriminate.
Qed.

Lemma calculate_ok_iff (df : DataFrame Enriched) (out : list DistanceSummary) :
  calculate_player_distances df = Ok out <->
  all_groups_paired df = true /\
  out = flat_map block (groupby (tracking_rows df)).
Proof.
  split.
  - intros H. pose proof (calculate_ok_paired df out H) as Hp.
    split; [exact Hp|]. rewrite (calculate_paired df Hp) in H. congruence.
  - intros [Hp ->]. apply calculate_paired. exact Hp.
Qed.

Lemma In_block (g : key3 * list Tracking) (s : DistanceSummary) :
  In s (block g) ->
  exists i p, nth_error (snd g) i = Some p /\ s = summary_row (fst g) (snd g) (i, p).
Proof.
  unfold block. intros H. apply in_map_iff in H. destruct H as [[i p] [<- Hin]].
  exists i, p. split; [|reflexivity].
  unfold indexed in Hin. apply In_nth_error in Hin. destruct Hin as [n Hn].
  assert (Hgen : forall (m : list Tracking) k j a q,
            nth_error (combine (seq k (List.length m)) m) j = Some (a, q) ->
            a = (k + j)%nat /\ nth_error m j = Some q).
  { induction m as [|b m IHm]; intros k j a q Hq; [destruct j; discriminate|].
    destruct j as [|j]; simpl in Hq.
    - inversion Hq; subst. split; [lia|reflexivity].
    - destruct (IHm (S k) j a q Hq) as [-> Hm]. split; [lia|exact Hm]. }
  destruct (Hgen (snd g) 0%nat n i p Hn) as [-> Hp]. exact Hp.
Qed.

(** *** The statistics of a row *)



End DistanceFacts.

(** ** What the statistics depend on *)

Module DistanceOrder.

Import Pandas Numpy Distance DistanceSpec FloatFacts NumpyFacts PandasFacts DistanceFacts.











(** *** Row order *)





End DistanceOrder.

(** ** The claims about the distance table *)

Module DistanceClaims.

Import Pandas Numpy Distance DistanceSpec FloatFacts NumpyFacts PandasFacts
  DistanceFacts DistanceOrder.

Lemma emitted_block (df : DataFrame Enriched) (out : list DistanceSummary)
  (k : key3) (rows : list Tracking) :
  calculate_player_distances df = Ok out ->
  In (k, rows) (groupby (tracking_rows df)) ->
  filter (has_key k) out = block (k, rows).
Proof.
  intros Hout Hg. apply calculate_ok_iff in Hout. destruct Hout as [_ ->].
  apply pick_group; [|exact Hg].
  rewrite groupby_keys. apply sorted_NoDup. apply group_keys_sorted.
Qed.



Lemma paired_group (df : DataFrame Enriched) (k : key3) (rows : list Tracking) :
  all_groups_paired df = true ->
  In (k, rows) (groupby (tracking_rows df)) -> (2 <= List.length rows)%nat.
Proof.
  intros Hp Hg. apply (proj1 (all_groups_paired_iff df) Hp (k, rows) Hg).
Qed.

(** C1: on a table with a group of exactly one player the distance
    computation emits no row at all: [np.min] of the empty list of distances
    raises a ValueError, which ends the run.  So it is for the frame with a
    single tracked player, and for a table in which a single-player frame
    follows a frame of two players. *)
Theorem lone_player_aborts_the_engine :
  calculate_player_distances Frames.lone_player = Raise ValueError /\
  calculate_player_distances Frames.pair_and_lone = Raise ValueError.
Proof. split; vm_compute; reflexivity. Qed.


(** X1: on a table whose key cells are numbers or missing, the engine
    returns a table exactly when every group of the table has at least two
    players; otherwise it raises the ValueError of [np.min]. *)
Theorem engine_returns_iff_groups_are_paired (df : DataFrame Enriched) :
  forallb Tables.numeric_key (tracking_rows df) = true ->
  ((exists out, calculate_player_distances df = Ok out) <->
   all_groups_paired df = true) /\
  (all_groups_paired df = false ->
   calculate_player_distances df = Raise ValueError).
Proof.
  intros _. split.
  - split.
    + intros [out Hout]. apply (calculate_ok_paired df out Hout).
    + intros Hp. eexists. apply calculate_paired. exact Hp.
  - intros Hnp.
    destruct (for_each_cases _ _ group_summaries ValueError
                (groupby (tracking_rows df))) as [[out Hout]|Hr].
    + intros g _. apply group_summaries_cases.
    + assert (Hcalc : calculate_player_distances df = Ok out) by exact Hout.
      rewrite (calculate_ok_paired df out Hcalc) in Hnp. discriminate.
    + exact Hr.
Qed.

(** The scenario of the specification: the two players at (0,0) and (3,4)
    each get minimum, maximum and mean 5 and standard deviation 0. *)
Lemma two_players_run :
  calculate_player_distances Frames.two_players =
  Ok [mkSummary 100 10 1 (Num 1) 5 5 5 0; mkSummary 100 10 1 (Num 2) 5 5 5 0].
Proof. vm_compute. reflexivity. Qed.

(** The engine returns on the two players at (0,0) and (3,4). *)
Lemma two_players_engine_returns :
  exists out, calculate_player_distances Frames.two_players = Ok out.
Proof.
  apply (proj1 (engine_returns_iff_groups_are_paired Frames.two_players eq_refl)).
  reflexivity.
Defined.





End DistanceClaims.

(** ** The roster filter and the shape of the ingested table *)

Module RosterFacts.

Import Pandas Stages Rows Tables PandasFacts IngestFacts.
Open Scope Z_scope.

Lemma In_unique (cs : list cell) (c : cell) : In c (unique cs) <-> In c cs.
Proof.
  induction cs as [|d rest IH]; simpl.
  - tauto.
  - rewrite filter_In, IH. split.
    + intros [H|[H _]]; auto.
    + intros [H|H]; [left; exact H|].
      destruct (cell_eqb d c) eqn:E.
      * left. apply cell_eqb_eq. exact E.
      * right. split; [exact H|]. reflexivity.
Qed.


Lemma flat_map_ext_on (A B : Type) (f g : A -> list B) (l : list A) :
  (forall a, In a l -> f a = g a) -> flat_map f l = flat_map g l.
Proof.
  induction l as [|a rest IH]; intros H; [reflexivity|].
  cbn [flat_map]. rewrite (H a (or_introl eq_refl)), IH; [reflexivity|].
  intros b Hb. apply H. right. exact Hb.
Qed.

Lemma labels_range_index (R : Type) (rows : list R) (start : Z) :
  map fst (range_index start rows) =
  map (fun i => start + Z.of_nat i) (seq 0 (List.length rows)).
Proof.
  revert start. induction rows as [|r rest IH]; intros start.
  - reflexivity.
  - cbn [range_index map List.length seq fst]. rewrite IH, <- seq_shift, map_map.
    f_equal; [f_equal; lia|]. apply map_ext. intros i. lia.
Qed.

Lemma length_range_index (R : Type) (rows : list R) (start : Z) :
  List.length (range_index start rows) = List.length rows.
Proof.
  rewrite <- (values_range_index start rows) at 2. unfold values.
  rewrite length_map. reflexivity.
Qed.

Lemma range_index_labels (R : Type) (rows : list R) :
  map fst (range_index 0 rows) = range_labels (List.length (range_index 0 rows)).
Proof.
  rewrite labels_range_index, length_range_index. reflexivity.
Qed.

Section WithNumerals.

Variable parse_numeric : string -> option Z.

Lemma filter_players_by_position_eq (players : list Player) (positions : list cell) :
  filter_players_by_position parse_numeric players positions =
  Ok (roster_ids parse_numeric players positions).
Proof.
  unfold filter_players_by_position, roster_ids.
  rewrite coerce_int_keeps_rows
    by (apply NoDup_labels_filter; apply range_index_NoDup).
  cbn [bind]. f_equal. f_equal. unfold values, loc, read_csv.
  rewrite !map_map. cbn [snd fst player_nflId set_player_nflId].
  rewrite <- (values_range_index 0 players) at 2. unfold values.
  rewrite <- (map_map snd (fun r => to_numeric_cell parse_numeric (player_nflId r))).
  f_equal. symmetry. apply filter_map_swap.
Qed.

Lemma filter_tracking_data_eq (weeks : list (Z * list Tracking))
  (valid : list cell) (n : nat) :
  filter_tracking_data parse_numeric weeks valid (S n) =
  Ok (range_index 0 (ingested parse_numeric weeks valid)).
Proof.
  unfold filter_tracking_data, ingested.
  destruct (@for_each_values (Z * list Tracking) Tagged
              (filter_week parse_numeric valid (S n))
              (fun wf => map (fun r => mkTagged (coerce_tracking parse_numeric r) (fst wf))
                           (filter (survives valid) (snd wf)))
              weeks) as [all [Hall Hflat]].
  { intros wf _. apply filter_week_ok. }
  rewrite Hall. cbn [bind]. rewrite <- Hflat.
  destruct all as [|d rest]; reflexivity.
Qed.

Lemma In_roster_ids (players : list Player) (positions : list cell) (c : cell) :
  In c (roster_ids parse_numeric players positions) <->
  exists r, In r players /\ In (position r) positions /\
            c = to_numeric_cell parse_numeric (player_nflId r).
Proof.
  unfold roster_ids. rewrite In_unique, in_map_iff. split.
  - intros [r [<- Hr]]. apply filter_In in Hr. destruct Hr as [Hr Hp].
    exists r. split; [exact Hr|]. split; [|reflexivity].
    apply isin_In. exact Hp.
  - intros [r [Hr [Hp ->]]]. exists r. split; [reflexivity|].
    apply filter_In. split; [exact Hr|]. apply isin_In. exact Hp.
Qed.

Lemma roster_ids_shape (players : list Player) (positions : list cell) (c : cell) :
  In c (roster_ids parse_numeric players positions) ->
  c = Missing \/ exists z, c = Num z.
Proof.
  intros Hc. apply In_roster_ids in Hc. destruct Hc as [r [_ [_ ->]]].
  apply to_numeric_cell_shape.
Qed.


Lemma coerce_clean (r : Tracking) :
  clean_identifiers r = true -> coerce_tracking parse_numeric r = r.
Proof.
  unfold clean_identifiers, coerce_tracking. destruct r as [g p n f t px py rest].
  cbn [gameId playId nflId frameId frameType x y tracking_rest].
  destruct g, p, n, f; cbn [is_text orb negb to_numeric_cell]; intros H;
    try discriminate H; reflexivity.
Qed.

(** X3: on week files whose identifier columns hold numbers and missing
    values only, tracking ingestion gives the same table for every block size
    of at least one row: the rows that pass the filter, as they are in the
    files, each with the week of its file, in week and file order, under the
    labels 0, 1, 2, ... whatever the blocks were.  A block size of zero is a
    ValueError as soon as there is a week file to read. *)
Theorem ingest_ignores_the_block_size (weeks : list (Z * list Tracking))
  (valid : list cell) (n m : nat) :
  forallb (fun wf => forallb clean_identifiers (snd wf)) weeks = true ->
  filter_tracking_data parse_numeric weeks valid (S n) =
    filter_tracking_data parse_numeric weeks valid (S m) /\
  (exists out,
     filter_tracking_data parse_numeric weeks valid (S n) = Ok out /\
     values out =
       flat_map (fun wf => map (fun r => mkTagged r (fst wf))
                             (filter (survives valid) (snd wf))) weeks /\
     map fst out = range_labels (List.length out)) /\
  (forall wf, filter_tracking_data parse_numeric (wf :: weeks) valid 0 =
              Raise ValueError).
Proof.
  intros Hclean.
  split; [rewrite !filter_tracking_data_eq; reflexivity|].
  split.
  - eexists. split; [apply filter_tracking_data_eq|].
    split; [|apply range_index_labels].
    rewrite values_range_index. unfold ingested.
    apply flat_map_ext_on. intros wf Hwf. apply map_ext_in. intros r Hr.
    rewrite coerce_clean; [reflexivity|].
    rewrite forallb_forall in Hclean. specialize (Hclean wf Hwf).
    rewrite forallb_forall in Hclean. apply Hclean.
    apply filter_In in Hr. exact (proj1 Hr).
  - intros wf. reflexivity.
Qed.

(** X4: a tracking row without an identifier (the football) is ingested
    exactly when the roster has a row of a valid position whose nflId is no
    number: the missing value that row leaves among the valid identifiers
    matches the missing identifier of the tracking row. *)
Theorem unidentified_rows_follow_the_roster (players : list Player)
  (positions : list cell) (weeks : list (Z * list Tracking)) (n : nat)
  (w : Z) (file : list Tracking) (r : Tracking) :
  In (w, file) weeks -> In r file -> nflId r = Missing ->
  frameType r = Txt "BEFORE_SNAP" \/ frameType r = Txt "SNAP" ->
  exists ids out,
    filter_players_by_position parse_numeric players positions = Ok ids /\
    filter_tracking_data parse_numeric weeks ids (S n) = Ok out /\
    ((exists p, In p players /\ In (position p) positions /\
                to_numeric_cell parse_numeric (player_nflId p) = Missing) ->
     In (mkTagged (coerce_tracking parse_numeric r) w) (values out)) /\
    ((forall p, In p players -> In (position p) positions ->
                exists z, to_numeric_cell parse_numeric (player_nflId p) = Num z) ->
     forall t, In t (values out) -> nflId (tracked t) <> Missing).
Proof.
  intros Hweek Hfile Hid Hframe.
  exists (roster_ids parse_numeric players positions).
  eexists. split; [apply filter_players_by_position_eq|].
  split; [apply filter_tracking_data_eq|].
  rewrite values_range_index.
  pose proof (In_roster_ids players positions) as Hids.
  split.
  - intros [p [Hp [Hpos Hmiss]]]. unfold ingested. apply in_flat_map.
    exists (w, file). split; [exact Hweek|]. cbn [fst snd].
    apply (in_map (fun r => mkTagged (coerce_tracking parse_numeric r) w)).
    apply filter_In. split; [exact Hfile|]. apply survives_iff.
    split; [|exact Hframe]. rewrite Hid. apply Hids.
    exists p. split; [exact Hp|]. split; [exact Hpos|]. symmetry. exact Hmiss.
  - intros Hall t Ht. unfold ingested in Ht. apply in_flat_map in Ht.
    destruct Ht as [[w' file'] [_ Ht]]. cbn [fst snd] in Ht.
    apply in_map_iff in Ht. destruct Ht as [r' [<- Hr']].
    apply filter_In in Hr'. destruct Hr' as [_ Hs].
    apply survives_iff in Hs. destruct Hs as [Hin _].
    apply Hids in Hin. destruct Hin as [p [Hp [Hpos Heq]]].
    destruct (Hall p Hp Hpos) as [z Hz]. cbn [tracked nflId coerce_tracking].
    rewrite Heq, Hz. cbn [to_numeric_cell]. discriminate.
Qed.

(** X5: with the identifiers of the position filter, the coercion of nflId
    in tracking ingestion changes nothing: the filter on nflId runs on the
    cells as read and before the coercion, the valid identifiers are numbers
    or missing, so a row with a text for nflId is never ingested, even when
    the text reads as a valid identifier, and every ingested row has the
    nflId of its file row.  The three identifiers of an ingested row are
    numbers or missing. *)
Theorem ingested_identifiers_were_numbers_already (players : list Player)
  (positions : list cell) (weeks : list (Z * list Tracking)) (n : nat) :
  exists ids out,
    filter_players_by_position parse_numeric players positions = Ok ids /\
    filter_tracking_data parse_numeric weeks ids (S n) = Ok out /\
    forall t, In t (values out) ->
      (exists file r,
         In (week t, file) weeks /\ In r file /\
         tracked t = coerce_tracking parse_numeric r /\
         nflId (tracked t) = nflId r /\ forall s, nflId r <> Txt s) /\
      (gameId (tracked t) = Missing \/ exists z, gameId (tracked t) = Num z) /\
      (playId (tracked t) = Missing \/ exists z, playId (tracked t) = Num z) /\
      (nflId (tracked t) = Missing \/ exists z, nflId (tracked t) = Num z).
Proof.
  exists (roster_ids parse_numeric players positions).
  eexists. split; [apply filter_players_by_position_eq|].
  split; [apply filter_tracking_data_eq|].
  rewrite values_range_index. intros t Ht. unfold ingested in Ht.
  apply in_flat_map in Ht. destruct Ht as [[w file] [Hweek Ht]].
  cbn [fst snd] in Ht. apply in_map_iff in Ht. destruct Ht as [r [<- Hr]].
  apply filter_In in Hr. destruct Hr as [Hr Hs].
  apply survives_iff in Hs. destruct Hs as [Hid _].
  apply roster_ids_shape in Hid. cbn [tracked week].
  split.
  - exists file, r. split; [exact Hweek|]. split; [exact Hr|].
    split; [reflexivity|]. cbn [coerce_tracking nflId].
    destruct Hid as [Hid|[z Hid]]; rewrite Hid; cbn [to_numeric_cell];
      split; try reflexivity; intros s; discriminate.
  - cbn [coerce_tracking gameId playId nflId].
    split; [apply to_numeric_cell_shape|].
    split; apply to_numeric_cell_shape.
Qed.

End WithNumerals.

(** Week 1 of the sample files, read in blocks of two rows and in one block. *)
Lemma week_one_in_blocks :
  filter_tracking_data Samples.integer_numerals [(1, Files.week_one)]
    [Num 1; Num 2] 2 =
  filter_tracking_data Samples.integer_numerals [(1, Files.week_one)]
    [Num 1; Num 2] 5.
Proof.
  apply (@ingest_ignores_the_block_size Samples.integer_numerals
           [(1, Files.week_one)] [Num 1; Num 2] 1 4).
  reflexivity.
Defined.

(** The football of week 1 is ingested with the roster whose tackle has no
    identifier. *)
Lemma football_is_ingested :
  exists ids out,
    filter_players_by_position Samples.integer_numerals Files.roster
      Pipeline.valid_positions = Ok ids /\
    filter_tracking_data Samples.integer_numerals [(1, Files.week_one)] ids 2 = Ok out /\
    In (mkTagged (Files.snap Missing (Num 100) (Num 10) 1 1) 1) (values out).
Proof.
  destruct (@unidentified_rows_follow_the_roster Samples.integer_numerals
              Files.roster Pipeline.valid_positions [(1, Files.week_one)] 1
              1 Files.week_one (Files.snap Missing (Num 100) (Num 10) 1 1))
    as [ids [out [Hids [Hout [Hin _]]]]].
  - left. reflexivity.
  - right. right. right. left. reflexivity.
  - reflexivity.
  - right. reflexivity.
  - exists ids, out. split; [exact Hids|]. split; [exact Hout|].
    apply Hin. exists (mkPlayer Missing (Txt "T")).
    split; [right; right; right; left; reflexivity|].
    split; [|reflexivity].
    right. right. right. right. left. reflexivity.
Defined.

End RosterFacts.

(** ** How many rows the two joins return *)

Module JoinShape.

Import Pandas Stages Rows Tables PandasFacts JoinFacts RosterFacts.
Open Scope Z_scope.

Lemma filter_length_le_1 (A K : Type) (f : A -> K) (p : K -> bool) (l : list A) :
  (forall a b, p a = true -> p b = true -> a = b) ->
  NoDup (map f l) ->
  (List.length (filter (fun a => p (f a)) l) <= 1)%nat.
Proof.
  intros Hp. induction l as [|a rest IH]; intros Hnd.
  - simpl. lia.
  - inversion Hnd as [|? ? Hnotin Hrest]; subst. cbn [filter].
    destruct (p (f a)) eqn:Ha.
    + assert (Hnone : filter (fun a => p (f a)) rest = []).
      { destruct (filter (fun a => p (f a)) rest) as [|b more] eqn:Hf.
        - reflexivity.
        - exfalso. assert (Hb : In b (filter (fun a => p (f a)) rest))
            by (rewrite Hf; left; reflexivity).
          apply filter_In in Hb. destruct Hb as [Hb Hpb].
          apply Hnotin. rewrite (Hp (f a) (f b) Ha Hpb).
          apply in_map. exact Hb. }
      rewrite Hnone. simpl. lia.
    + apply IH. exact Hrest.
Qed.

Lemma map_const_repeat (A B : Type) (b : B) (l : list A) :
  map (fun _ => b) l = repeat b (List.length l).
Proof. induction l as [|a rest IH]; simpl; [reflexivity|rewrite IH; reflexivity]. Qed.



Lemma length_flat_map_ge (A B : Type) (f : A -> list B) (l : list A) :
  (forall a, In a l -> (1 <= List.length (f a))%nat) ->
  (List.length l <= List.length (flat_map f l))%nat.
Proof.
  induction l as [|a rest IH]; intros H.
  - simpl. lia.
  - cbn [flat_map]. rewrite length_app. cbn [List.length].
    specialize (H a (or_introl eq_refl)) as Ha.
    assert (List.length rest <= List.length (flat_map f rest))%nat
      by (apply IH; intros b Hb; apply H; right; exact Hb).
    lia.
Qed.

Section WithNumerals.

Variable parse_numeric : string -> option Z.

Lemma matches_dropbacks (plays_csv : list Play) (ids : DataFrame PlayKey) (t : Tagged) :
  values ids =
    map (fun p => mkPlayKey (to_numeric_cell parse_numeric (play_gameId p))
                   (to_numeric_cell parse_numeric (play_playId p)))
      (filter is_dropback plays_csv) ->
  List.length (matches tracking_key play_key t ids) =
  List.length (dropbacks_of parse_numeric plays_csv t).
Proof.
  intros Hids. unfold matches, dropbacks_of. rewrite Hids.
  generalize (filter is_dropback plays_csv) as l.
  induction l as [|p rest IH]; [reflexivity|].
  cbn [map filter]. unfold has_key_of at 1, play_key at 1, coerced_play_key at 1.
  cbn [key_gameId key_playId].
  destruct (key2_eqb _ _); cbn [List.length]; rewrite IH; reflexivity.
Qed.

Lemma filter_for_pass_plays_eq (plays_csv : list Play)
  (tracking_data : DataFrame Tagged) :
  filter_for_pass_plays parse_numeric plays_csv tracking_data =
  Ok (range_index 0 (pass_rows parse_numeric plays_csv (values tracking_data))).
Proof.
  unfold filter_for_pass_plays.
  destruct (dropback_play_ids_values parse_numeric plays_csv) as [ids [Hids Hvalues]].
  rewrite Hids. cbn [bind]. unfold merge_inner, pass_rows. do 2 f_equal.
  apply flat_map_ext. intros t.
  rewrite !map_const_repeat. f_equal. apply matches_dropbacks. exact Hvalues.
Qed.

Lemma matches_plays (plays_csv : list Play) (infos : DataFrame PlayInfo) (t : Tagged) :
  values infos =
    map (fun p => mkPlayInfo (to_numeric_cell parse_numeric (play_gameId p))
                   (to_numeric_cell parse_numeric (play_playId p)) (context p))
      plays_csv ->
  map info_context (matches tracking_key info_key t infos) =
  map context (plays_of parse_numeric plays_csv t).
Proof.
  intros Hinfos. unfold matches, plays_of. rewrite Hinfos. clear Hinfos.
  induction plays_csv as [|p rest IH]; [reflexivity|].
  cbn [map filter]. unfold has_key_of at 1, info_key at 1, coerced_play_key at 1.
  cbn [info_gameId info_playId].
  destruct (key2_eqb _ _); cbn [map info_context]; rewrite IH; reflexivity.
Qed.

Lemma merge_with_plays_rows (plays_csv : list Play)
  (tracking_data : DataFrame Tagged) :
  merge_with_plays parse_numeric plays_csv tracking_data =
  Ok (range_index 0 (enriched_rows parse_numeric plays_csv (values tracking_data))).
Proof.
  destruct (merge_with_plays_eq parse_numeric plays_csv tracking_data)
    as [infos [Hinfos Heq]].
  rewrite Heq. unfold merge_left, enriched_rows. do 2 f_equal.
  apply flat_map_ext. intros t.
  pose proof (matches_plays plays_csv infos t Hinfos) as Hm.
  destruct (matches tracking_key info_key t infos) as [|r rs];
    destruct (plays_of parse_numeric plays_csv t) as [|p ps];
    try discriminate Hm; [reflexivity|].
  rewrite <- (map_map context (fun c => mkEnriched t c)), <- Hm, map_map.
  reflexivity.
Qed.

Lemma key_selects_one (k a b : key2) :
  key2_eqb k a = true -> key2_eqb k b = true -> a = b.
Proof.
  intros Ha Hb. apply key2_eqb_eq in Ha. apply key2_eqb_eq in Hb. congruence.
Qed.

Lemma length_enriched_block (plays_csv : list Play) (t : Tagged) :
  List.length match plays_of parse_numeric plays_csv t with
              | [] => [mkEnriched t missing_context]
              | ps => map (fun p => mkEnriched t (context p)) ps
              end =
  Nat.max 1 (List.length (plays_of parse_numeric plays_csv t)).
Proof.
  destruct (plays_of parse_numeric plays_csv t) as [|p ps]; [reflexivity|].
  rewrite length_map. cbn [List.length]. lia.
Qed.

Lemma tagged_enriched_block (plays_csv : list Play) (t : Tagged) :
  map tagged match plays_of parse_numeric plays_csv t with
             | [] => [mkEnriched t missing_context]
             | ps => map (fun p => mkEnriched t (context p)) ps
             end =
  repeat t (Nat.max 1 (List.length (plays_of parse_numeric plays_csv t))).
Proof.
  destruct (plays_of parse_numeric plays_csv t) as [|p ps]; [reflexivity|].
  rewrite map_map. cbn [tagged]. rewrite map_const_repeat. reflexivity.
Qed.



(** X8: on a tracking table with coerced keys the play-context merge returns
    every tracking row once per play with the row's (gameId, playId) as its
    coerced key, and once when there is no such play, in the order of the
    tracking table and under the labels 0, 1, 2, ...; the result is never
    shorter than the tracking table. *)
Theorem context_merge_repeats_rows (plays_csv : list Play)
  (tracking_data : DataFrame Tagged) :
  forallb coerced_keys (values tracking_data) = true ->
  exists out,
    merge_with_plays parse_numeric plays_csv tracking_data = Ok out /\
    map tagged (values out) =
      flat_map (fun t => repeat t
                  (Nat.max 1 (List.length (plays_of parse_numeric plays_csv t))))
        (values tracking_data) /\
    map fst out = range_labels (List.length out) /\
    (List.length tracking_data <= List.length out)%nat.
Proof.
  intros _. eexists. split; [apply merge_with_plays_rows|].
  split; [|split; [apply range_index_labels|]].
  - rewrite values_range_index.
    unfold enriched_rows. rewrite flat_map_concat_map, concat_map, map_map.
    rewrite <- flat_map_concat_map. apply flat_map_ext. intros t.
    apply tagged_enriched_block.
  - rewrite length_range_index. unfold enriched_rows, values.
    rewrite <- (length_map snd tracking_data).
    apply length_flat_map_ge. intros t _. rewrite length_enriched_block. lia.
Qed.

(** X9: when the plays have pairwise distinct coerced keys, the play-context
    merge is row for row: on a tracking table with coerced keys the result
    has as many rows as the tracking table, its i-th row extends the i-th
    tracking row, and the context of a row is that of the one play with its
    key, or missing when no play has it. *)
Theorem context_merge_is_row_for_row (plays_csv : list Play)
  (tracking_data : DataFrame Tagged) :
  forallb coerced_keys (values tracking_data) = true ->
  NoDup (map (coerced_play_key parse_numeric) plays_csv) ->
  exists out,
    merge_with_plays parse_numeric plays_csv tracking_data = Ok out /\
    map tagged (values out) = values tracking_data /\
    List.length out = List.length tracking_data /\
    (forall e, In e (values out) ->
       plays_of parse_numeric plays_csv (tagged e) = [] /\
       play_context e = missing_context \/
       exists p, plays_of parse_numeric plays_csv (tagged e) = [p] /\
                 play_context e = context p).
Proof.
  intros _ Hnd.
  assert (Hone : forall t,
            (List.length (plays_of parse_numeric plays_csv t) <= 1)%nat).
  { intros t. unfold plays_of, has_key_of.
    apply (@filter_length_le_1 Play key2 (coerced_play_key parse_numeric)
             (key2_eqb (tracking_key t))); [|exact Hnd].
    intros a b. apply key_selects_one. }
  assert (Hrows : map tagged (enriched_rows parse_numeric plays_csv
                                (values tracking_data)) = values tracking_data).
  { unfold enriched_rows. rewrite flat_map_concat_map, concat_map, map_map.
    rewrite <- flat_map_concat_map.
    induction (values tracking_data) as [|t rest IH]; [reflexivity|].
    cbn [flat_map]. rewrite IH, tagged_enriched_block.
    specialize (Hone t).
    destruct (plays_of parse_numeric plays_csv t) as [|p [|q ps]];
      cbn [List.length] in *; try lia; reflexivity. }
  eexists. split; [apply merge_with_plays_rows|].
  rewrite length_range_index, values_range_index.
  split; [exact Hrows|]. split.
  - rewrite <- (length_map tagged), Hrows. unfold values. apply length_map.
  - intros e He. unfold enriched_rows in He. apply in_flat_map in He.
    destruct He as [t [_ He]]. specialize (Hone t).
    destruct (plays_of parse_numeric plays_csv t) as [|p [|q ps]] eqn:Hp;
      cbn [List.length] in Hone; try lia.
    + destruct He as [<-|[]]. left. cbn [tagged play_context].
      split; [exact Hp|reflexivity].
    + destruct He as [<-|[]]. right. exists p. cbn [tagged play_context].
      split; [exact Hp|reflexivity].
Qed.

End WithNumerals.



Lemma context_merge_labels_week_one :
  exists out,
    merge_with_plays Samples.integer_numerals Files.plays Files.ingested = Ok out /\
    map fst out = range_labels (List.length out) /\
    (2 <= List.length out)%nat.
Proof.
  destruct (@context_merge_repeats_rows Samples.integer_numerals Files.plays
              Files.ingested) as [out [Hout [_ [Hlabels Hlen]]]].
  - reflexivity.
  - exists out. split; [exact Hout|]. split; [exact Hlabels|exact Hlen].
Defined.

(** The play-context merge on the same tables. *)
Lemma context_merge_week_one :
  exists out,
    merge_with_plays Samples.integer_numerals Files.plays Files.ingested = Ok out /\
    map tagged (values out) = values Files.ingested /\
    List.length out = 2%nat.
Proof.
  destruct (@context_merge_is_row_for_row Samples.integer_numerals Files.plays
              Files.ingested) as [out [Hout [Hrows [Hlen _]]]].
  - reflexivity.
  - vm_compute. constructor; [intros []|constructor].
  - exists out. split; [exact Hout|]. split; [exact Hrows|exact Hlen].
Defined.

End JoinShape.

(** ** Missing coordinates in the distance engine *)

Module NanFacts.

Import Numpy Distance DistanceSpec FloatFacts NumpyFacts.
Open Scope float_scope.

Lemma add_nan (a b : float) :
  is_nan a = true \/ is_nan b = true -> is_nan (a + b) = true.
Proof.
  rewrite !is_nan_spec, add_spec. intros [H|H]; rewrite H.
  - reflexivity.
  - destruct (Prim2SF a); reflexivity.
Qed.

Lemma sub_nan (a b : float) :
  is_nan a = true \/ is_nan b = true -> is_nan (a - b) = true.
Proof.
  rewrite !is_nan_spec, sub_spec. intros [H|H]; rewrite H.
  - reflexivity.
  - destruct (Prim2SF a); reflexivity.
Qed.

Lemma mul_nan (a b : float) :
  is_nan a = true \/ is_nan b = true -> is_nan (a * b) = true.
Proof.
  rewrite !is_nan_spec, mul_spec. intros [H|H]; rewrite H.
  - reflexivity.
  - destruct (Prim2SF a); reflexivity.
Qed.

Lemma div_nan (a b : float) : is_nan a = true -> is_nan (a / b) = true.
Proof. rewrite !is_nan_spec, div_spec. intros H. rewrite H. reflexivity. Qed.

Lemma sqrt_nan (a : float) : is_nan a = true -> is_nan (sqrt a) = true.
Proof. rewrite !is_nan_spec, sqrt_spec. intros H. rewrite H. reflexivity. Qed.

Lemma distance_nan (p q : Tracking) :
  is_nan (x p) = true \/ is_nan (y p) = true \/
  is_nan (x q) = true \/ is_nan (y q) = true ->
  is_nan (distance p q) = true.
Proof.
  intros H. unfold distance, square. apply sqrt_nan. apply add_nan.
  destruct H as [H|[H|[H|H]]].
  - left. apply mul_nan. left. apply sub_nan. left. exact H.
  - right. apply mul_nan. left. apply sub_nan. left. exact H.
  - left. apply mul_nan. left. apply sub_nan. right. exact H.
  - right. apply mul_nan. left. apply sub_nan. right. exact H.
Qed.

Lemma fold_add_nan (l : list float) (acc : float) :
  is_nan acc = true \/ existsb is_nan l = true ->
  is_nan (fold_left PrimFloat.add l acc) = true.
Proof.
  revert acc. induction l as [|a rest IH]; intros acc H; cbn [fold_left].
  - destruct H as [H|H]; [exact H|discriminate].
  - apply IH. cbn [existsb] in H. rewrite orb_true_iff in H.
    destruct H as [H|[H|H]].
    + left. apply add_nan. left. exact H.
    + left. apply add_nan. right. exact H.
    + right. exact H.
Qed.

Lemma existsb_firstn_skipn (n : nat) (l : list float) :
  existsb is_nan l = existsb is_nan (firstn n l) || existsb is_nan (skipn n l).
Proof. rewrite <- existsb_app, firstn_skipn. reflexivity. Qed.

Lemma add_lanes_nan (r a : list float) :
  List.length r = List.length a ->
  existsb is_nan r || existsb is_nan a = true ->
  existsb is_nan (add_lanes r a) = true.
Proof.
  revert a. induction r as [|r0 r IH]; intros [|a0 a] Hlen H; try discriminate.
  unfold add_lanes in *. cbn [combine map existsb fst snd] in *.
  rewrite !orb_true_iff in *.
  destruct H as [[H|H]|[H|H]].
  - left. apply add_nan. left. exact H.
  - right. apply IH; [simpl in Hlen; lia|]. rewrite H. reflexivity.
  - left. apply add_nan. right. exact H.
  - right. apply IH; [simpl in Hlen; lia|]. rewrite H. apply orb_true_r.
Qed.

Lemma length_add_lanes (r a : list float) :
  List.length r = List.length a -> List.length (add_lanes r a) = List.length r.
Proof.
  intros H. unfold add_lanes. rewrite length_map, length_combine. lia.
Qed.

Lemma accumulate_nan (blocks : nat) (r a : list float) :
  List.length r = 8%nat -> (8 * blocks <= List.length a)%nat ->
  List.length (fst (accumulate blocks r a)) = 8%nat /\
  (existsb is_nan r || existsb is_nan a = true ->
   existsb is_nan (fst (accumulate blocks r a)) ||
   existsb is_nan (snd (accumulate blocks r a)) = true).
Proof.
  revert r a. induction blocks as [|blocks IH]; intros r a Hr Ha.
  - cbn [accumulate fst snd]. split; [exact Hr|]. intros H. exact H.
  - cbn [accumulate].
    assert (Hfirst : List.length (firstn 8 a) = 8%nat)
      by (rewrite length_firstn; lia).
    destruct (IH (add_lanes r (firstn 8 a)) (skipn 8 a)) as [Hlen Hnan].
    + rewrite length_add_lanes; lia.
    + rewrite length_skipn. lia.
    + split; [exact Hlen|]. intros H. apply Hnan.
      rewrite (existsb_firstn_skipn 8 a), orb_assoc in H.
      rewrite orb_true_iff in H. destruct H as [H|H].
      * rewrite add_lanes_nan; [reflexivity|lia|exact H].
      * rewrite H. apply orb_true_r.
Qed.

Lemma block_sum_nan (l : list float) :
  (8 <= List.length l)%nat -> existsb is_nan l = true ->
  is_nan (block_sum l) = true.
Proof.
  intros Hlen Hnan. unfold block_sum.
  destruct (@accumulate_nan (List.length l / 8 - 1) (firstn 8 l) (skipn 8 l))
    as [Hr Hacc].
  - rewrite length_firstn. lia.
  - rewrite length_skipn.
    pose proof (Nat.Div0.mul_div_le (List.length l) 8). lia.
  - rewrite <- existsb_firstn_skipn in Hacc. specialize (Hacc Hnan).
    destruct (accumulate (List.length l / 8 - 1) (firstn 8 l) (skipn 8 l))
      as [r tail].
    cbn [fst snd] in *.
    destruct r as [|r0 [|r1 [|r2 [|r3 [|r4 [|r5 [|r6 [|r7 [|r8 r]]]]]]]]];
      try discriminate Hr.
    apply fold_add_nan. rewrite orb_true_iff in Hacc.
    destruct Hacc as [H|H]; [left|right; exact H].
    cbn [existsb] in H. rewrite !orb_true_iff in H.
    destruct H as [H|[H|[H|[H|[H|[H|[H|[H|H]]]]]]]]; try discriminate H.
    + apply add_nan. left. apply add_nan. left. apply add_nan. left. exact H.
    + apply add_nan. left. apply add_nan. left. apply add_nan. right. exact H.
    + apply add_nan. left. apply add_nan. right. apply add_nan. left. exact H.
    + apply add_nan. left. apply add_nan. right. apply add_nan. right. exact H.
    + apply add_nan. right. apply add_nan. left. apply add_nan. left. exact H.
    + apply add_nan. right. apply add_nan. left. apply add_nan. right. exact H.
    + apply add_nan. right. apply add_nan. right. apply add_nan. left. exact H.
    + apply add_nan. right. apply add_nan. right. apply add_nan. right. exact H.
Qed.

Lemma pairwise_sum_nan (fuel : nat) (l : list float) :
  existsb is_nan l = true -> is_nan (pairwise_sum fuel l) = true.
Proof.
  revert l. induction fuel as [|fuel IH]; intros l Hnan; cbn [pairwise_sum].
  - destruct (List.length l <? 8)%nat eqn:Hshort.
    + apply fold_add_nan. right. exact Hnan.
    + apply Nat.ltb_ge in Hshort.
      destruct (List.length l <=? 128)%nat; apply block_sum_nan; assumption.
  - destruct (List.length l <? 8)%nat eqn:Hshort.
    + apply fold_add_nan. right. exact Hnan.
    + apply Nat.ltb_ge in Hshort.
      destruct (List.length l <=? 128)%nat; [apply block_sum_nan; assumption|].
      apply add_nan.
      rewrite (existsb_firstn_skipn
                 (List.length l / 2 - (List.length l / 2) mod 8) l) in Hnan.
      rewrite orb_true_iff in Hnan.
      destruct Hnan as [H|H]; [left|right]; apply IH; exact H.
Qed.

Lemma np_sum_nan (l : list float) :
  existsb is_nan l = true -> is_nan (np_sum l) = true.
Proof. apply pairwise_sum_nan. Qed.

Lemma np_mean_nan (l : list float) :
  existsb is_nan l = true -> is_nan (np_mean l) = true.
Proof. intros H. unfold np_mean. apply div_nan. apply np_sum_nan. exact H. Qed.

Lemma np_std_nan (l : list float) :
  existsb is_nan l = true -> is_nan (np_std l) = true.
Proof.
  intros H. unfold np_std, np_var. apply sqrt_nan. apply div_nan.
  apply np_sum_nan. rewrite map_map.
  assert (Hmean : is_nan (np_sum l / count l) = true)
    by (apply div_nan; apply np_sum_nan; exact H).
  destruct l as [|d rest]; [discriminate H|].
  cbn [map existsb]. apply orb_true_iff. left.
  apply mul_nan. left. apply sub_nan. right. exact Hmean.
Qed.

Lemma np_min_nan (l : list float) :
  existsb is_nan l = true -> is_nan (value_or_nan (np_min l)) = true.
Proof.
  intros H. destruct l as [|a rest]; [discriminate H|].
  cbn [np_min value_or_nan]. apply fold_minimum_nan. exact H.
Qed.

Lemma np_max_nan (l : list float) :
  existsb is_nan l = true -> is_nan (value_or_nan (np_max l)) = true.
Proof.
  intros H. destruct l as [|a rest]; [discriminate H|].
  cbn [np_max value_or_nan]. apply fold_maximum_nan. exact H.
Qed.

End NanFacts.

(** ** The rows of the distance table *)

Module EngineShape.

Import Pandas Numpy Distance DistanceSpec Tables FloatFacts NumpyFacts
  PandasFacts DistanceFacts DistanceClaims NanFacts.

Lemma map_of_flat_map (A B C : Type) (f : B -> C) (g : A -> list B) (l : list A) :
  map f (flat_map g l) = flat_map (fun a => map f (g a)) l.
Proof.
  induction l as [|a rest IH]; [reflexivity|].
  cbn [flat_map]. rewrite map_app, IH. reflexivity.
Qed.

Lemma flat_map_of_flat_map (A B C : Type) (f : B -> list C) (g : A -> list B)
  (l : list A) :
  flat_map f (flat_map g l) = flat_map (fun a => flat_map f (g a)) l.
Proof.
  induction l as [|a rest IH]; [reflexivity|].
  cbn [flat_map]. rewrite flat_map_app, IH. reflexivity.
Qed.

Lemma flat_map_of_map (A B C : Type) (f : B -> list C) (g : A -> B) (l : list A) :
  flat_map f (map g l) = flat_map (fun a => f (g a)) l.
Proof.
  induction l as [|a rest IH]; [reflexivity|].
  cbn [map flat_map]. rewrite IH. reflexivity.
Qed.

Lemma others_or_self (A : Type) (l : list A) (i : nat) (q : A) :
  In q l -> In q (others i l) \/ nth_error l i = Some q.
Proof.
  revert i. induction l as [|a rest IH]; intros i Hq; [destruct Hq|].
  destruct i as [|i]; cbn [others nth_error].
  - destruct Hq as [->|Hq]; [right; reflexivity|left; exact Hq].
  - destruct Hq as [->|Hq]; [left; left; reflexivity|].
    destruct (IH i Hq) as [H|H]; [left; right; exact H|right; exact H].
Qed.

Lemma distances_poisoned (rows : list Tracking) (i : nat) (p q : Tracking) :
  (2 <= List.length rows)%nat -> nth_error rows i = Some p -> In q rows ->
  is_nan (x q) = true \/ is_nan (y q) = true ->
  existsb is_nan (distances_for_player rows i) = true.
Proof.
  intros Hlen Hp Hq Hnan.
  rewrite (distances_for_player_others rows i p Hp). unfold distances_to_others.
  destruct (others_or_self _ rows i q Hq) as [Hin|Hself].
  - apply existsb_exists. exists (distance p q).
    split; [apply in_map; exact Hin|].
    apply distance_nan. right. right. exact Hnan.
  - assert (p = q) by congruence. subst q.
    assert (Hothers : List.length (others i rows) = (List.length rows - 1)%nat).
    { apply length_others. apply nth_error_Some. rewrite Hp. discriminate. }
    destruct (others i rows) as [|r rest]; [simpl in Hothers; lia|].
    cbn [map existsb]. apply orb_true_iff. left. apply distance_nan.
    destruct Hnan as [H|H]; [left; exact H|right; left; exact H].
Qed.

Lemma map_snd_indexed (A : Type) (l : list A) : map snd (indexed l) = l.
Proof.
  unfold indexed. generalize 0%nat as k.
  induction l as [|a rest IH]; intros k; [reflexivity|].
  cbn [List.length seq combine map snd]. rewrite IH. reflexivity.
Qed.

Lemma block_players (k : key3) (rows : list Tracking) :
  (forall r, In r rows -> key_of r = Some k) ->
  map summary_player (block (k, rows)) = flat_map row_player rows.
Proof.
  intros Hkey. unfold block. cbn [fst snd]. rewrite map_map.
  assert (Hgen : forall l : list (nat * Tracking),
            (forall ip, In ip l -> key_of (snd ip) = Some k) ->
            map (fun ip => summary_player (summary_row k rows ip)) l =
            flat_map row_player (map snd l)).
  { induction l as [|ip rest IH]; intros Hin; [reflexivity|].
    cbn [map flat_map]. rewrite IH by (intros ip' H; apply Hin; right; exact H).
    unfold row_player at 2. rewrite (Hin ip (or_introl eq_refl)).
    destruct k as [[g p] f]. reflexivity. }
  rewrite Hgen, map_snd_indexed; [reflexivity|].
  intros ip Hip. apply Hkey. rewrite <- (map_snd_indexed _ rows).
  apply in_map. exact Hip.
Qed.

Lemma filter_disjoint (A : Type) (p q : A -> bool) (l : list A) :
  (forall a, p a = true -> q a = true -> False) ->
  Permutation (filter p l ++ filter q l) (filter (fun a => p a || q a) l).
Proof.
  intros Hpq. induction l as [|a rest IH]; [constructor|].
  cbn [filter]. destruct (p a) eqn:Hp, (q a) eqn:Hq; cbn [orb app].
  - exfalso. exact (Hpq a Hp Hq).
  - constructor. exact IH.
  - apply Permutation_sym, Permutation_cons_app, Permutation_sym. exact IH.
  - exact IH.
Qed.

Lemma groups_partition (rows : list Tracking) (ks : list key3) :
  NoDup ks ->
  Permutation (flat_map (fun k => filter (in_group k) rows) ks)
    (filter (key_among ks) rows).
Proof.
  induction ks as [|k ks IH]; intros Hnd.
  - cbn [flat_map]. unfold key_among. cbn [existsb].
    induction rows as [|r rest IHr]; [constructor|exact IHr].
  - inversion Hnd as [|? ? Hnotin Hrest]; subst. cbn [flat_map].
    eapply Permutation_trans; [apply Permutation_app_head, IH, Hrest|].
    unfold key_among at 2. cbn [existsb]. apply filter_disjoint.
    intros r Hk Hks. apply Hnotin. apply in_group_iff in Hk.
    unfold key_among in Hks. apply existsb_exists in Hks.
    destruct Hks as [k' [Hin Hk']]. apply in_group_iff in Hk'.
    assert (k = k') by congruence. subst k'. exact Hin.
Qed.

Lemma key_among_group_keys (rows : list Tracking) (r : Tracking) :
  In r rows -> key_among (group_keys rows) r = keyed r.
Proof.
  intros Hr. unfold key_among, keyed. destruct (key_of r) as [k|] eqn:Hk.
  - apply existsb_exists. exists k. split.
    + apply In_group_keys. exists r. split; assumption.
    + apply in_group_iff. exact Hk.
  - destruct (existsb _ _) eqn:E; [|reflexivity].
    apply existsb_exists in E. destruct E as [k [_ Hin]].
    apply in_group_iff in Hin. congruence.
Qed.

Lemma row_player_keyed (rows : list Tracking) :
  flat_map row_player (filter keyed rows) = flat_map row_player rows.
Proof.
  induction rows as [|r rest IH]; [reflexivity|].
  cbn [filter flat_map]. unfold keyed at 1, row_player at 2.
  destruct (key_of r) as [k|] eqn:Hk.
  - cbn [flat_map]. unfold row_player at 1. rewrite Hk, IH. reflexivity.
  - exact IH.
Qed.

Lemma length_row_player (rows : list Tracking) :
  List.length (flat_map row_player rows) = List.length (filter keyed rows).
Proof.
  induction rows as [|r rest IH]; [reflexivity|].
  cbn [filter flat_map]. rewrite length_app, IH. unfold keyed, row_player.
  destruct (key_of r); reflexivity.
Qed.

Lemma key3_le_refl (k : key3) : key3_le k k.
Proof.
  unfold key3_le. rewrite (proj2 (key3_compare_eq k k) eq_refl). discriminate.
Qed.

Lemma key3_lt_le (a b : key3) : key3_lt a b -> key3_le a b.
Proof. unfold key3_lt, key3_le. intros H. rewrite H. discriminate. Qed.

Lemma sorted_app (l1 l2 : list key3) :
  StronglySorted key3_le l1 -> StronglySorted key3_le l2 ->
  (forall a b, In a l1 -> In b l2 -> key3_le a b) ->
  StronglySorted key3_le (l1 ++ l2).
Proof.
  induction l1 as [|a l1 IH]; intros H1 H2 Hcross; [exact H2|].
  inversion H1 as [|? ? Hs Hall]; subst. cbn [app]. constructor.
  - apply IH; [exact Hs|exact H2|].
    intros a' b Ha' Hb. apply Hcross; [right; exact Ha'|exact Hb].
  - apply Forall_app. split; [exact Hall|].
    apply Forall_forall. intros b Hb. apply Hcross; [left; reflexivity|exact Hb].
Qed.

Lemma sorted_repeat (k : key3) (n : nat) : StronglySorted key3_le (repeat k n).
Proof.
  induction n as [|n IH]; cbn [repeat]; constructor; [exact IH|].
  apply Forall_forall. intros b Hb. apply repeat_spec in Hb. subst b.
  apply key3_le_refl.
Qed.

Lemma sorted_blocks (ks : list key3) (size : key3 -> nat) :
  StronglySorted key3_lt ks ->
  StronglySorted key3_le (flat_map (fun k => repeat k (size k)) ks).
Proof.
  induction ks as [|k ks IH]; intros Hs; [constructor|].
  inversion Hs as [|? ? Hrest Hall]; subst. cbn [flat_map].
  apply sorted_app; [apply sorted_repeat|apply IH; exact Hrest|].
  intros a b Ha Hb. apply repeat_spec in Ha. subst a.
  apply in_flat_map in Hb. destruct Hb as [k' [Hk' Hb]].
  apply repeat_spec in Hb. subst b. apply key3_lt_le.
  rewrite Forall_forall in Hall. apply Hall. exact Hk'.
Qed.

Lemma block_keys (k : key3) (rows : list Tracking) :
  map (fun s => fst (summary_player s)) (block (k, rows)) =
  repeat k (List.length rows).
Proof.
  unfold block. cbn [fst snd]. rewrite map_map.
  rewrite <- (length_indexed _ rows).
  induction (indexed rows) as [|ip rest IH]; [reflexivity|].
  cbn [map List.length repeat]. rewrite IH. f_equal.
  unfold summary_player. cbn [fst]. apply summary_row_key.
Qed.

Lemma table_players (df : DataFrame Enriched) (out : list DistanceSummary) :
  calculate_player_distances df = Ok out ->
  Permutation (map summary_player out) (flat_map row_player (tracking_rows df)).
Proof.
  intros Hout. apply calculate_ok_iff in Hout. destruct Hout as [_ ->].
  set (rows := tracking_rows df).
  unfold groupby. rewrite map_of_flat_map, flat_map_of_map. cbn beta.
  rewrite (flat_map_ext _ (fun k => flat_map row_player (filter (in_group k) rows))).
  - rewrite <- row_player_keyed.
    rewrite <- (filter_ext_in (key_among (group_keys rows)) keyed rows)
      by (intros r Hr; apply key_among_group_keys; exact Hr).
    rewrite <- flat_map_of_flat_map.
    apply Permutation_flat_map, groups_partition, sorted_NoDup,
      group_keys_sorted.
  - intros k. apply block_players. intros r Hr. apply filter_In in Hr.
    apply in_group_iff. exact (proj2 Hr).
Qed.

Lemma table_length (df : DataFrame Enriched) (out : list DistanceSummary) :
  calculate_player_distances df = Ok out ->
  List.length out = List.length (filter keyed (tracking_rows df)).
Proof.
  intros Hout. rewrite <- length_row_player, <- (length_map summary_player).
  apply Permutation_length. apply table_players. exact Hout.
Qed.

Lemma table_sorted (df : DataFrame Enriched) (out : list DistanceSummary) :
  calculate_player_distances df = Ok out ->
  StronglySorted key3_le (map (fun s => fst (summary_player s)) out).
Proof.
  intros Hout. apply calculate_ok_iff in Hout. destruct Hout as [_ ->].
  unfold groupby. rewrite map_of_flat_map, flat_map_of_map. cbn beta.
  rewrite (flat_map_ext _ (fun k => repeat k
             (List.length (filter (in_group k) (tracking_rows df)))))
    by (intros k; apply block_keys).
  apply sorted_blocks. apply group_keys_sorted.
Qed.

Lemma calculate_unpaired (df : DataFrame Enriched) :
  all_groups_paired df = false ->
  calculate_player_distances df = Raise ValueError.
Proof.
  intros Hnp.
  destruct (for_each_cases _ _ group_summaries ValueError
              (groupby (tracking_rows df))) as [[out Hout]|Hr].
  - intros g _. apply group_summaries_cases.
  - assert (Hcalc : calculate_player_distances df = Ok out) by exact Hout.
    rewrite (calculate_ok_paired df out Hcalc) in Hnp. discriminate.
  - exact Hr.
Qed.

Lemma keyed_complete (r : Tracking) :
  numeric_key r = true -> keyed r = complete_key r.
Proof.
  unfold numeric_key, keyed, complete_key, key_of.
  destruct (gameId r), (playId r), (frameId r);
    cbn [is_text orb negb notnull andb]; intros H; try discriminate H;
    reflexivity.
Qed.

(** X10: on a table whose key cells are numbers or missing, when the distance
    engine returns, its table has one row for every tracking row none of
    whose gameId, playId and frameId is missing, and no row for the others:
    the (key, nflId) pairs of the table are those of these rows, up to order;
    and the table is sorted by key, whatever the order of the tracking rows. *)
Theorem distance_table_covers_the_keyed_rows (df : DataFrame Enriched)
  (out : list DistanceSummary) :
  forallb numeric_key (tracking_rows df) = true ->
  calculate_player_distances df = Ok out ->
  Permutation (map summary_player out) (flat_map row_player (tracking_rows df)) /\
  List.length out = List.length (filter complete_key (tracking_rows df)) /\
  StronglySorted key3_le (map (fun s => fst (summary_player s)) out).
Proof.
  intros Hnumeric Hout.
  split; [exact (table_players df out Hout)|].
  split; [|exact (table_sorted df out Hout)].
  rewrite (table_length df out Hout). f_equal.
  apply filter_ext_in. intros r Hr. apply keyed_complete.
  rewrite forallb_forall in Hnumeric. apply Hnumeric. exact Hr.
Qed.

(** X11: a row whose x or y is NaN spoils its whole frame: when the engine
    returns, every row of the distance table with the key of that frame, the
    row of the player himself and the rows of all the other players, has NaN
    for its four statistics. *)
Theorem nan_coordinate_poisons_the_frame (df : DataFrame Enriched)
  (out : list DistanceSummary) (k : key3) (rows : list Tracking) (q : Tracking)
  (s : DistanceSummary) :
  calculate_player_distances df = Ok out ->
  In (k, rows) (groupby (tracking_rows df)) ->
  In q rows -> is_nan (x q) = true \/ is_nan (y q) = true ->
  In s (filter (has_key k) out) ->
  is_nan (min_distance s) = true /\ is_nan (max_distance s) = true /\
  is_nan (mean_distance s) = true /\ is_nan (std_distance s) = true.
Proof.
  intros Hout Hgroup Hq Hnan Hs.
  rewrite (emitted_block df out k rows Hout Hgroup) in Hs.
  apply In_block in Hs. cbn [fst snd] in Hs. destruct Hs as [i [p [Hp ->]]].
  assert (Hlen : (2 <= List.length rows)%nat).
  { apply (paired_group df k rows); [|exact Hgroup].
    apply (calculate_ok_paired df out Hout). }
  pose proof (distances_poisoned rows i p q Hlen Hp Hq Hnan) as Hds.
  unfold summary_row.
  cbn [min_distance max_distance mean_distance std_distance fst snd].
  split; [apply np_min_nan; exact Hds|].
  split; [apply np_max_nan; exact Hds|].
  split; [apply np_mean_nan; exact Hds|apply np_std_nan; exact Hds].
Qed.

(** The distance table of the two players at (0,0) and (3,4). *)
Lemma two_players_are_covered :
  Permutation
    (map summary_player
       [mkSummary 100 10 1 (Num 1) 5 5 5 0; mkSummary 100 10 1 (Num 2) 5 5 5 0])
    (flat_map row_player (tracking_rows Frames.two_players)) /\
  2%nat = List.length (filter complete_key (tracking_rows Frames.two_players)) /\
  StronglySorted key3_le
    (map (fun s => fst (summary_player s))
       [mkSummary 100 10 1 (Num 1) 5 5 5 0; mkSummary 100 10 1 (Num 2) 5 5 5 0]).
Proof.
  apply (distance_table_covers_the_keyed_rows Frames.two_players).
  - reflexivity.
  - vm_compute. reflexivity.
Defined.

(** Player 2 without an x coordinate: player 1 has no statistic either. *)
Lemma nan_row_poisons_player_one :
  is_nan (min_distance (mkSummary 100 10 1 (Num 1) nan nan nan nan)) = true /\
  is_nan (max_distance (mkSummary 100 10 1 (Num 1) nan nan nan nan)) = true /\
  is_nan (mean_distance (mkSummary 100 10 1 (Num 1) nan nan nan nan)) = true /\
  is_nan (std_distance (mkSummary 100 10 1 (Num 1) nan nan nan nan)) = true.
Proof.
  apply (nan_coordinate_poisons_the_frame Files.frame_with_nan
           [mkSummary 100 10 1 (Num 1) nan nan nan nan;
            mkSummary 100 10 1 (Num 2) nan nan nan nan;
            mkSummary 100 10 1 (Num 3) nan nan nan nan]
           (100, 10, 1)%Z
           (tracking_rows Files.frame_with_nan)
           (tracked (tagged (Frames.player 100 10 1 2 nan 4)))).
  - vm_compute. reflexivity.
  - vm_compute. left. reflexivity.
  - right. left. reflexivity.
  - left. reflexivity.
  - left. reflexivity.
Defined.

End EngineShape.

(** ** The distance of two rows *)

Module DistanceGeometry.

Import Pandas Numpy Distance DistanceSpec Tables FloatFacts NumpyFacts
  PandasFacts DistanceFacts DistanceClaims.
Open Scope float_scope.












Lemma fold_minimum_In (rest : list float) (a : float) :
  In (fold_left minimum rest a) (a :: rest).
Proof.
  revert a. induction rest as [|b rest IH]; intros a; [left; reflexivity|].
  cbn [fold_left]. destruct (IH (minimum a b)) as [H|H].
  - rewrite <- H. unfold minimum.
    destruct ((a <=? b) || is_nan a); [left|right; left]; reflexivity.
  - right. right. exact H.
Qed.

Lemma fold_maximum_In (rest : list float) (a : float) :
  In (fold_left maximum rest a) (a :: rest).
Proof.
  revert a. induction rest as [|b rest IH]; intros a; [left; reflexivity|].
  cbn [fold_left]. destruct (IH (maximum a b)) as [H|H].
  - rewrite <- H. unfold maximum.
    destruct ((b <=? a) || is_nan a); [left|right; left]; reflexivity.
  - right. right. exact H.
Qed.

Lemma distances_not_negative (rows : list Tracking) (i : nat) (d : float) :
  In d (distances_for_player rows i) -> (d <? 0) = false.
Proof.
  unfold distances_for_player. intros H. apply in_flat_map in H.
  destruct H as [j [_ H]]. destruct (Nat.eqb i j); [destruct H|].
  destruct (nth_error rows i) as [p|]; [|destruct H].
  destruct (nth_error rows j) as [q|]; [|destruct H].
  destruct H as [<-|[]]. unfold distance. apply sqrt_not_negative.
Qed.




(** X15: the minimum and the maximum distance of a row of the distance table
    are never negative. *)
Theorem min_and_max_are_not_negative (df : DataFrame Enriched)
  (out : list DistanceSummary) (s : DistanceSummary) :
  calculate_player_distances df = Ok out -> In s out ->
  (min_distance s <? 0) = false /\ (max_distance s <? 0) = false.
Proof.
  intros Hout Hs. pose proof (calculate_ok_paired df out Hout) as Hpaired.
  apply calculate_ok_iff in Hout. destruct Hout as [_ ->].
  apply in_flat_map in Hs. destruct Hs as [[k rows] [Hgroup Hs]].
  apply In_block in Hs. cbn [fst snd] in Hs. destruct Hs as [i [p [Hi ->]]].
  unfold summary_row. cbn [min_distance max_distance fst snd].
  destruct (distances_for_player rows i) as [|d ds] eqn:Hds.
  - split; reflexivity.
  - cbn [np_min np_max value_or_nan]. split.
    + apply (distances_not_negative rows i). rewrite Hds. apply fold_minimum_In.
    + apply (distances_not_negative rows i). rewrite Hds. apply fold_maximum_In.
Qed.



(** The rows of the two players at (0,0) and (3,4). *)
Lemma two_players_are_not_negative :
  (min_distance (mkSummary 100 10 1 (Num 1) 5 5 5 0) <? 0) = false /\
  (max_distance (mkSummary 100 10 1 (Num 1) 5 5 5 0) <? 0) = false.
Proof.
  apply (min_and_max_are_not_negative Frames.two_players
           [mkSummary 100 10 1 (Num 1) 5 5 5 0; mkSummary 100 10 1 (Num 2) 5 5 5 0]).
  - vm_compute. reflexivity.
  - left. reflexivity.
Defined.

End DistanceGeometry.

(** ** The orchestrator *)

Module PipelineFacts.

Import Pandas Stages Rows Distance DistanceSpec Tables Pipeline Run
  PandasFacts RouteFacts IngestFacts JoinFacts FloatFacts NumpyFacts
  DistanceFacts DistanceClaims RosterFacts JoinShape EngineShape.
Open Scope Z_scope.

Lemma default_chunk_size_positive : default_chunk_size = S (Z.to_nat 49999).
Proof.
  unfold default_chunk_size. rewrite <- Z2Nat.inj_succ by lia. reflexivity.
Qed.

Lemma convert_seconds_of (game_clock : cell) :
  Clock.convert_game_clock_to_seconds game_clock = Ok (seconds_of game_clock).
Proof.
  unfold seconds_of, Clock.convert_game_clock_to_seconds.
  destruct (Clock.clock_body game_clock); reflexivity.
Qed.

Lemma apply_clock_eq (df : DataFrame Enriched) :
  apply_clock df = Ok (project clock_of df).
Proof.
  induction df as [|[l e] rest IH]; [reflexivity|].
  cbn [apply_clock]. rewrite IH, (convert_seconds_of (gameClock (play_context e))).
  reflexivity.
Qed.

Lemma project_project (A B C : Type) (f : A -> B) (g : B -> C) (df : DataFrame A) :
  project g (project f df) = project (fun a => g (f a)) df.
Proof. unfold project. rewrite map_map. reflexivity. Qed.

Lemma project_id (A : Type) (f : A -> A) (df : DataFrame A) :
  (forall a, f a = a) -> project f df = df.
Proof.
  intros H. unfold project. rewrite <- (map_id df) at 2.
  apply map_ext. intros [l a]. cbn [fst snd]. rewrite H. reflexivity.
Qed.

Lemma values_project (A B : Type) (f : A -> B) (df : DataFrame A) :
  values (project f df) = map f (values df).
Proof. unfold values, project. rewrite !map_map. reflexivity. Qed.

Section WithNumerals.

Variable parse_numeric : string -> option Z.

Lemma main_outcome (players_csv : list Player) (tracking_week : Z -> list Tracking)
  (plays_csv : list Play) (player_play_csv : list PlayerPlay) :
  main parse_numeric players_csv tracking_week plays_csv player_play_csv =
  outcome parse_numeric players_csv tracking_week plays_csv player_play_csv.
Proof.
  unfold main, outcome, prepared, ingest, week_files.
  rewrite filter_players_by_position_eq. cbn [bind].
  rewrite default_chunk_size_positive, filter_tracking_data_eq. cbn [bind].
  destruct (ingested parse_numeric
              (map (fun w => (w, tracking_week w)) default_weeks)
              (roster_ids parse_numeric players_csv valid_positions))
    as [|t rest] eqn:Hrows.
  - cbn [range_index].
    destruct (dropback_play_ids_values parse_numeric plays_csv) as [ids [Hids _]].
    rewrite Hids. reflexivity.
  - cbn [range_index]. rewrite filter_for_pass_plays_eq. cbn [bind].
    rewrite merge_with_plays_rows. cbn [bind].
    rewrite values_range_index, apply_clock_eq. cbn [bind].
    change ((0, t) :: range_index (0 + 1) rest) with (range_index 0 (t :: rest)).
    rewrite values_range_index.
    rewrite project_project, project_id by reflexivity.
    destruct (calculate_player_distances _) as [dm|e]; [|reflexivity].
    cbn [bind]. destruct dm as [|s dm]; [reflexivity|]. cbn [bind].
    reflexivity.
Qed.

Lemma In_ingest (players_csv : list Player) (tracking_week : Z -> list Tracking)
  (t : Tagged) :
  In t (ingest parse_numeric players_csv tracking_week) ->
  exists r pl,
    In (week t) default_weeks /\ In r (tracking_week (week t)) /\
    t = mkTagged (coerce_tracking parse_numeric r) (week t) /\
    (frameType r = Txt "BEFORE_SNAP" \/ frameType r = Txt "SNAP") /\
    In pl players_csv /\ In (position pl) valid_positions /\
    nflId r = to_numeric_cell parse_numeric (player_nflId pl).
Proof.
  unfold ingest, ingested, week_files. intros Ht. apply in_flat_map in Ht.
  destruct Ht as [[w file] [Hw Ht]]. cbn [fst snd] in Ht.
  apply in_map_iff in Hw. destruct Hw as [w' [Hw' Hin]].
  inversion Hw'; subst w' file. clear Hw'.
  apply in_map_iff in Ht. destruct Ht as [r [<- Hr]]. cbn [week].
  apply filter_In in Hr. destruct Hr as [Hr Hs].
  apply survives_iff in Hs. destruct Hs as [Hid Hframe].
  unfold roster_ids in Hid. apply In_unique, in_map_iff in Hid.
  destruct Hid as [pl [Hpl Hin_pl]]. apply filter_In in Hin_pl.
  destruct Hin_pl as [Hin_pl Hpos]. apply isin_In in Hpos.
  exists r, pl. repeat split; try assumption. symmetry. exact Hpl.
Qed.

Lemma In_has_key_of (plays_csv : list Play) (t : Tagged) (p : Play) :
  has_key_of parse_numeric t p = true <->
  tracking_key t = coerced_play_key parse_numeric p.
Proof. unfold has_key_of. apply key2_eqb_eq. Qed.

Lemma In_prepared (players_csv : list Player) (tracking_week : Z -> list Tracking)
  (plays_csv : list Play) (e : Enriched) :
  In e (values (prepared parse_numeric players_csv tracking_week plays_csv)) ->
  In (tagged e) (ingest parse_numeric players_csv tracking_week) /\
  (exists p, In p plays_csv /\ dropback_true (isDropback p) /\
             tracking_key (tagged e) = coerced_play_key parse_numeric p) /\
  (exists p, In p plays_csv /\
             tracking_key (tagged e) = coerced_play_key parse_numeric p /\
             play_context e = context p).
Proof.
  unfold prepared. rewrite values_range_index. unfold enriched_rows, pass_rows.
  intros He. apply in_flat_map in He. destruct He as [t [Ht He]].
  apply in_flat_map in Ht. destruct Ht as [t' [Ht' Ht]].
  apply in_map_iff in Ht. destruct Ht as [p [<- Hp]].
  unfold dropbacks_of in Hp. apply filter_In in Hp. destruct Hp as [Hp Hkey].
  apply filter_In in Hp. destruct Hp as [Hp Hdrop].
  assert (Hplay : In p (plays_of parse_numeric plays_csv t'))
    by (apply filter_In; split; assumption).
  assert (Hblock : tagged e = t' /\
                   exists p', In p' (plays_of parse_numeric plays_csv t') /\
                              play_context e = context p').
  { destruct (plays_of parse_numeric plays_csv t') as [|q qs]; [destruct Hplay|].
    apply in_map_iff in He. destruct He as [p' [<- Hp']].
    split; [reflexivity|]. exists p'. split; [exact Hp'|reflexivity]. }
  destruct Hblock as [-> [p' [Hp' Hcontext]]].
  apply filter_In in Hp'. destruct Hp' as [Hp' Hkey'].
  split; [exact Ht'|]. split.
  - exists p. split; [exact Hp|]. split.
    + apply is_dropback_iff. exact Hdrop.
    + apply (In_has_key_of plays_csv). exact Hkey.
  - exists p'. split; [exact Hp'|]. split; [|exact Hcontext].
    apply (In_has_key_of plays_csv). exact Hkey'.
Qed.

Lemma main_cases (players_csv : list Player) (tracking_week : Z -> list Tracking)
  (plays_csv : list Play) (player_play_csv : list PlayerPlay) :
  let run := main parse_numeric players_csv tracking_week plays_csv player_play_csv in
  let rows := ingest parse_numeric players_csv tracking_week in
  let table := prepared parse_numeric players_csv tracking_week plays_csv in
  (rows = [] /\ run = Raise KeyError) \/
  (rows <> [] /\ all_groups_paired table = false /\ run = Raise ValueError) \/
  (rows <> [] /\ all_groups_paired table = true /\
   filter keyed (tracking_rows table) = [] /\ run = Raise KeyError) \/
  (rows <> [] /\ all_groups_paired table = true /\
   filter keyed (tracking_rows table) <> [] /\
   exists distance_metrics routes,
     calculate_player_distances table = Ok distance_metrics /\
     filter_player_play_data parse_numeric player_play_csv = Ok routes /\
     run = Ok (project select_columns
                 (merge_distances (project clock_of table) distance_metrics),
               routes)).
Proof.
  intros run rows table. unfold run. rewrite main_outcome. unfold outcome.
  fold rows. fold table. destruct rows as [|t rest].
  - left. split; reflexivity.
  - right. assert (Hrows : t :: rest <> []) by discriminate.
    destruct (all_groups_paired table) eqn:Hpaired.
    + right. pose proof (calculate_paired table Hpaired) as Hcalc.
      pose proof (table_length table _ Hcalc) as Hlen.
      rewrite Hcalc. cbn [bind]. cbv zeta.
      destruct (flat_map block (groupby (tracking_rows table))) as [|s dm].
      * left. repeat split; try assumption.
        destruct (filter keyed (tracking_rows table)); [reflexivity|discriminate].
      * right. repeat split; try assumption.
        { intros Hnone. rewrite Hnone in Hlen. discriminate. }
        rewrite filter_player_play_data_eq. cbn [bind].
        eexists. eexists. split; [reflexivity|]. split; reflexivity.
    + left. repeat split; try assumption.
      rewrite (calculate_unpaired table Hpaired). reflexivity.
Qed.


Lemma In_final (table : DataFrame Enriched) (distance_metrics : list DistanceSummary)
  (f : Final) :
  In f (values (project select_columns
                  (merge_distances (project clock_of table) distance_metrics))) ->
  exists e,
    In e (values table) /\ extends f e /\
    (summaries_of (clock_of e) distance_metrics = [] /\
     final_statistics f = (nan, nan, nan, nan) \/
     exists s, In s distance_metrics /\
               key4_eqb (clocked_key (clock_of e)) (summary_key s) = true /\
               final_statistics f = statistics s).
Proof.
  rewrite values_project. intros Hf. apply in_map_iff in Hf.
  destruct Hf as [f0 [<- Hf0]]. unfold merge_distances in Hf0.
  rewrite values_range_index, values_project in Hf0.
  apply in_flat_map in Hf0. destruct Hf0 as [c [Hc Hf0]].
  apply in_map_iff in Hc. destruct Hc as [e [<- He]].
  exists e. split; [exact He|].
  destruct (summaries_of (clock_of e) distance_metrics) as [|s0 ms] eqn:Hms.
  - destruct Hf0 as [<-|[]]. split; [repeat split|]. left.
    split; reflexivity.
  - apply in_map_iff in Hf0. destruct Hf0 as [s [<- Hs]].
    split; [repeat split|]. right. exists s.
    rewrite <- Hms in Hs. unfold summaries_of in Hs. apply filter_In in Hs.
    destruct Hs as [Hs Hkey]. split; [exact Hs|]. split; [exact Hkey|reflexivity].
Qed.



Lemma final_labels (table : DataFrame Clocked) (distance_metrics : list DistanceSummary) :
  map fst (project select_columns (merge_distances table distance_metrics)) =
  range_labels
    (List.length (project select_columns (merge_distances table distance_metrics))).
Proof.
  unfold project at 1 2. rewrite length_map, map_map. cbn [fst].
  apply range_index_labels.
Qed.




(** X17: when [main] returns, its route table is that of the route-record
    filter, and its final tracking table, labelled 0, 1, 2, ..., holds only
    rows that passed every stage: each extends a row of the tracking file of
    its week (one of weeks 1 to 9) whose frameType is BEFORE_SNAP or SNAP and
    whose nflId is the coerced identifier of a roster row with a valid
    position; its (gameId, playId) is the coerced key of a play with a true
    status; its play context is that of a play with this key, never the
    missing context of an unmatched row; and its gameClockInSeconds is what
    the clock conversion makes of its gameClock. *)
Theorem final_rows_passed_every_stage (players_csv : list Player)
  (tracking_week : Z -> list Tracking) (plays_csv : list Play)
  (player_play_csv : list PlayerPlay)
  (final : DataFrame Final) (routes : DataFrame Route) :
  main parse_numeric players_csv tracking_week plays_csv player_play_csv =
    Ok (final, routes) ->
  filter_player_play_data parse_numeric player_play_csv = Ok routes /\
  map fst final = range_labels (List.length final) /\
  forall f, In f (values final) ->
    exists r pl p p',
      In (final_week f) default_weeks /\
      In r (tracking_week (final_week f)) /\
      final_tracking f = kept_columns (coerce_tracking parse_numeric r) /\
      (frameType r = Txt "BEFORE_SNAP" \/ frameType r = Txt "SNAP") /\
      In pl players_csv /\ In (position pl) valid_positions /\
      nflId r = to_numeric_cell parse_numeric (player_nflId pl) /\
      In p plays_csv /\ dropback_true (isDropback p) /\
      (gameId (final_tracking f), playId (final_tracking f)) =
        coerced_play_key parse_numeric p /\
      In p' plays_csv /\
      coerced_play_key parse_numeric p' = coerced_play_key parse_numeric p /\
      final_context f = context p' /\
      Clock.convert_game_clock_to_seconds (gameClock (final_context f)) =
        Ok (gameClockInSeconds (clocked f)).
Proof.
  intros Hrun.
  destruct (main_cases players_csv tracking_week plays_csv player_play_csv)
    as [[_ H]|[[_ [_ H]]|[[_ [_ [_ H]]]|
        [_ [_ [_ [dm [routes' [_ [Hroutes H]]]]]]]]]];
    cbv zeta in H; rewrite Hrun in H; try discriminate H.
  inversion H; subst final routes'. clear H.
  split; [exact Hroutes|]. split; [apply final_labels|].
  intros f Hf. apply In_final in Hf.
  destruct Hf as [e [He [[Htracking [Hweek [Hcontext Hclock]]] _]]].
  apply In_prepared in He.
  destruct He as [Ht [[p [Hp [Hdrop Hkey]]] [p' [Hp' [Hkey' Hctx]]]]].
  apply In_ingest in Ht.
  destruct Ht as [r [pl [Hw [Hr [Ht [Hframe [Hpl [Hpos Hid]]]]]]]].
  exists r, pl, p, p'. rewrite Hweek, Htracking, Hcontext, Hclock.
  split; [exact Hw|]. split; [exact Hr|].
  split; [rewrite Ht; reflexivity|]. split; [exact Hframe|].
  split; [exact Hpl|]. split; [exact Hpos|]. split; [exact Hid|].
  split; [exact Hp|]. split; [exact Hdrop|]. split; [exact Hkey|].
  split; [exact Hp'|]. split; [congruence|]. split; [exact Hctx|].
  apply convert_seconds_of.
Qed.


End WithNumerals.

(** The run on the sample files: week 1 with two offensive players and the
    football, one pass play. *)
Lemma week_one_run :
  exists final routes,
    main Samples.integer_numerals Files.roster Files.tracking_week Files.plays
      Files.player_play = Ok (final, routes) /\
    filter_player_play_data Samples.integer_numerals Files.player_play = Ok routes /\
    map fst final = range_labels (List.length final).
Proof.
  destruct (main Samples.integer_numerals Files.roster Files.tracking_week
              Files.plays Files.player_play) as [[final routes]|e] eqn:Hrun;
    [|vm_compute in Hrun; discriminate Hrun].
  exists final, routes. split; [reflexivity|].
  destruct (@final_rows_passed_every_stage Samples.integer_numerals Files.roster
              Files.tracking_week Files.plays Files.player_play final routes Hrun)
    as [Hroutes [Hlabels _]].
  split; [exact Hroutes|exact Hlabels].
Defined.



End PipelineFacts.
